(** * Corrade::Utility::Resource — compiled-in resources and their registry

    A shallow embedding of [src/Corrade/Utility/Resource.cpp]: the packing
    of files into three byte arrays ([compile]), their decoding into the
    process-wide registry ([registerData]), and the lookups of a
    [Resource] handle with its optional live override ([getRaw], [get],
    [list]).

    Conventions of the embedding:
    - [std::string] and arrays of [unsigned char] are Rocq strings
      (sequences of 8-bit characters);
    - [unsigned int] is a [Z] in [0, 2^32), every operation written with
      its wrap-around;
    - [std::map<std::string, V>] is an association list kept in the order
      of [std::string]'s [operator<];
    - the global registry, the override cache of a handle and the
      diagnostic output are passed explicitly. *)

From Stdlib Require Import ZArith Lia List String Ascii Bool.
From Stdlib Require Import Sorted Permutation OrderedTypeEx.
From Stdlib Require Import DecimalString DecimalNat.
From Stdlib Require DecimalFacts.
Import ListNotations.

Open Scope string_scope.
Open Scope list_scope.

(* ================================================================== *)
(** * [std::map<std::string, V>] *)

Module StdMap.

Definition t (V : Type) : Type := list (string * V).

Definition empty {V : Type} : t V := [].

(** [find]: the mapped value of the element with key [k], [None] standing
    for [end()]. *)
Fixpoint find {V : Type} (k : string) (m : t V) : option V :=
  match m with
  | [] => None
  | (k', v) :: m' => if String.eqb k k' then Some v else find k m'
  end.

(** Position of a new key in the order of [std::less<std::string>]. *)
Fixpoint insert {V : Type} (k : string) (v : V) (m : t V) : t V :=
  match m with
  | [] => [(k, v)]
  | (k', v') :: m' =>
      if String.ltb k k' then (k, v) :: m else (k', v') :: insert k v m'
  end.

(** [emplace]: inserts unless an element with that key exists already. *)
Definition emplace {V : Type} (k : string) (v : V) (m : t V) : t V :=
  match find k m with
  | Some _ => m
  | None => insert k v m
  end.

(** [operator[] =] through an iterator: replaces the mapped value of an
    existing element. *)
Fixpoint assign {V : Type} (k : string) (v : V) (m : t V) : t V :=
  match m with
  | [] => []
  | (k', v') :: m' =>
      if String.eqb k k' then (k', v) :: m' else (k', v') :: assign k v m'
  end.

Fixpoint erase {V : Type} (k : string) (m : t V) : t V :=
  match m with
  | [] => []
  | (k', v') :: m' =>
      if String.eqb k k' then m' else (k', v') :: erase k m'
  end.

(** Keys in iteration order ([begin()] to [end()]). *)
Definition keys {V : Type} (m : t V) : list string := map fst m.

Definition slt (a b : string) : Prop := String.ltb a b = true.

(** The representation invariant: keys strictly increasing. *)
Definition ordered {V : Type} (m : t V) : Prop :=
  StronglySorted slt (keys m).

End StdMap.

(* ================================================================== *)
(** * Memory: pointers into byte arrays *)

(** A pointer is null or designates a position in an array. *)
Inductive pointer : Type :=
| nullptr
| Ptr (block : string) (off : nat).

(** [p + n]. Arithmetic on the null pointer is defined for [+ 0] only;
    the model keeps it null. *)
Definition ptr_add (p : pointer) (n : nat) : pointer :=
  match p with
  | nullptr => nullptr
  | Ptr b off => Ptr b (off + n)
  end.

Definition zero_byte : ascii := Ascii.zero.

Fixpoint drop (n : nat) (s : string) : string :=
  match n, s with
  | O, _ => s
  | S n', String _ s' => drop n' s'
  | S _, EmptyString => EmptyString
  end.

(** The first [n] bytes of [s]; a read past the end of the array (which
    C++ leaves undefined) yields zero bytes. *)
Fixpoint take (n : nat) (s : string) : string :=
  match n with
  | O => EmptyString
  | S n' =>
      match s with
      | EmptyString => String zero_byte (take n' EmptyString)
      | String c s' => String c (take n' s')
      end
  end.

(** The [n] bytes at [p], as [std::string(p, n)] copies them. *)
Definition load (p : pointer) (n : nat) : string :=
  match p with
  | nullptr => take n EmptyString
  | Ptr b off => take n (drop off b)
  end.

(** [Containers::ArrayReference<const unsigned char>]: a borrowed view. *)
Record ArrayReference : Type := mkArrayReference {
  ar_data : pointer;
  ar_size : nat
}.

(** [Containers::Array<unsigned char>]: an owned buffer. *)
Record Array : Type := mkArray {
  a_begin : pointer;
  a_size : nat
}.

(** The conversion of [nullptr] to either container. *)
Definition nullReference : ArrayReference := mkArrayReference nullptr 0.
Definition nullArray : Array := mkArray nullptr 0.

(** The bytes a view designates. *)
Definition bytes (a : ArrayReference) : string := load (ar_data a) (ar_size a).

(* ================================================================== *)
(** * [unsigned int] and its object representation *)

(** [sizeof(unsigned int)], 4 on the platforms Corrade targets. *)
Definition size : Z := 4.

Definition wrap (z : Z) : Z := z mod 2 ^ (8 * size).

Inductive byte_order : Type := LittleEndian | BigEndian.

Fixpoint le_bytes (k : nat) (n : Z) : string :=
  match k with
  | O => EmptyString
  | S k' => String (ascii_of_N (Z.to_N (n mod 256))) (le_bytes k' (n / 256))
  end.

Fixpoint le_value (s : string) : Z :=
  match s with
  | EmptyString => 0
  | String c s' => Z.of_N (N_of_ascii c) + 256 * le_value s'
  end.

Definition reverse (s : string) : string :=
  string_of_list_ascii (rev (list_ascii_of_string s)).

(* ================================================================== *)
(** * The text of a compiled resource file *)

Definition nl : string := String (ascii_of_nat 10) EmptyString.
Definition dquote : string := String (ascii_of_nat 34) EmptyString.

(** One hexadecimal digit as [std::hex] prints it. *)
Definition hexdigit (n : N) : ascii :=
  if (n <? 10)%N then ascii_of_N (48 + n) else ascii_of_N (87 + n).

(** ["0x" << std::setw(2) << std::setfill('0') << value << ","]. *)
Definition hexbyte (c : ascii) : string :=
  "0x" ++ String (hexdigit (N_of_ascii c / 16))
            (String (hexdigit (N_of_ascii c mod 16)) ",").

(** The two loops of [hexcode] as one pass over the bytes, [col] being
    the position in the current row of 15. *)
Fixpoint hexrows (col : nat) (data : string) : string :=
  match data with
  | EmptyString => EmptyString
  | String c data' =>
      (if Nat.eqb col 0 then nl ++ "    " else "") ++ hexbyte c ++
      hexrows (if Nat.eqb (S col) 15 then 0 else S col) data'
  end.

Definition hexcode (data : string) : string := hexrows 0 data.

Definition comment (c : string) : string := nl ++ "    /* " ++ c ++ " */".

(** [s.resize(s.size()-1)] on a string that is not empty. *)
Fixpoint removeLast (s : string) : string :=
  match s with
  | EmptyString => EmptyString
  | String c EmptyString => EmptyString
  | String c s' => String c (removeLast s')
  end.

(** The variables of [compile] around its loop. *)
Record Arrays : Type := mkArrays {
  c_positions : string;
  c_filenames : string;
  c_data : string;
  c_filenamesLen : Z;
  c_dataLen : Z
}.

(* ================================================================== *)
(** * Diagnostics, assertions and the external manifest *)

(** [Debug], [Warning] and [Error] output: a message is the list of the
    operands of [<<]. *)
Inductive severity : Type := DebugOutput | WarningOutput | ErrorOutput.

Definition message : Type := list string.

Record output : Type := mkOutput {
  level : severity;
  text : message
}.

Definition quoted (s : string) : string := "'" ++ s ++ "'".

(** Modelled from the spec: the macros [CORRADE_ASSERT] and
    [CORRADE_INTERNAL_ASSERT] (Corrade/Utility/Assert.h) are not among
    the sources. A failed [CORRADE_ASSERT(condition, message, value)] is
    a fatal contract violation reported with [message]; [value], its
    third argument, is what the function returns where assertions are
    configured to return instead of aborting. A failed
    [CORRADE_INTERNAL_ASSERT] aborts. *)
Inductive outcome (A : Type) : Type :=
| Returned (a : A)
| AssertFailed (msg : message) (value : A)
| InternalAssertFailed.

Arguments Returned {A} a.
Arguments AssertFailed {A} msg value.
Arguments InternalAssertFailed {A}.

(** A caller going on with the callee's result. *)
Definition outcome_map {A B : Type} (f : A -> B) (o : outcome A) : outcome B :=
  match o with
  | Returned a => Returned (f a)
  | AssertFailed msg a => AssertFailed msg (f a)
  | InternalAssertFailed => InternalAssertFailed
  end.

(** Modelled from the spec: [Utility::Configuration] is not among the
    sources. Section 6 gives the manifest as a declared group name and an
    ordered sequence of file entries, each a filename with an optional
    alias: [conf.value("group")] and [conf.groups("file")] with
    [value("filename")], [hasValue("alias")] and [value("alias")]. *)
Module ConfigurationGroup.
Record t : Type := mk {
  filename : string;
  alias : option string
}.
End ConfigurationGroup.

Module Configuration.
Record t : Type := mk {
  group : string;
  files : list ConfigurationGroup.t
}.
End Configuration.

(** Modelled from the spec: the contextual conversion of an
    [ArrayReference] to [bool] (Corrade/Containers/Array.h is not among
    the sources); the spec's "null view" is a view whose pointer is
    null. *)
Definition nonNull (a : ArrayReference) : bool :=
  match ar_data a with
  | nullptr => false
  | Ptr _ _ => true
  end.

(* ================================================================== *)
(** * The registry and the handle *)

Module GroupData.
Record t : Type := mk {
  overrideGroup : string;
  resources : StdMap.t ArrayReference
}.
End GroupData.

Module OverrideData.
Record t : Type := mk {
  conf : Configuration.t;
  data : StdMap.t Array
}.
End OverrideData.

(** [std::map<std::string, GroupData>], the value of [resources()]. *)
Definition registry : Type := StdMap.t GroupData.t.

Module Resource.

(** A [Resource] object. [_group] is an iterator into the registry:
    [None] is [end()], [Some g] designates the element with key [g]. *)
Record t : Type := mk {
  _group : option string;
  _overrideGroup : option OverrideData.t
}.

Section Platform.

(** The byte order of the machine. *)
Variable order : byte_order.

(** [Utility::Directory] and the constructor of [Configuration], the
    collaborators of the override. *)
Variable fileExists : string -> bool.
Variable read : string -> Array.
Variable join : string -> string -> string.
Variable path : string -> string.
Variable loadConfiguration : string -> Configuration.t.

(** [numberToString<unsigned int>]: the [sizeof(T)] bytes of the
    object. *)
Definition numberToString (number : Z) : string :=
  match order with
  | LittleEndian => le_bytes (Z.to_nat size) number
  | BigEndian => reverse (le_bytes (Z.to_nat size) number)
  end.

(** [*reinterpret_cast<const unsigned int*>(p)]. *)
Definition readUnsigned (p : pointer) : Z :=
  let s := load p (Z.to_nat size) in
  match order with
  | LittleEndian => le_value s
  | BigEndian => le_value (reverse s)
  end.

(** One pass of the loop of [registerData] per remaining iteration [n];
    [i], [oldFilenamePosition] and [oldDataPosition] are the loop's
    [unsigned int] variables. *)
Fixpoint registerLoop (positions filenames data : pointer) (n : nat)
    (i oldFilenamePosition oldDataPosition : Z)
    (res : StdMap.t ArrayReference) : StdMap.t ArrayReference :=
  match n with
  | O => res
  | S n' =>
      let filenamePosition :=
        readUnsigned (ptr_add positions (Z.to_nat i)) in
      let dataPosition :=
        readUnsigned (ptr_add positions (Z.to_nat (i + size))) in
      let r := mkArrayReference
                 (ptr_add data (Z.to_nat oldDataPosition))
                 (Z.to_nat (wrap (dataPosition - oldDataPosition))) in
      let name := load (ptr_add filenames (Z.to_nat oldFilenamePosition))
                    (Z.to_nat (wrap (filenamePosition - oldFilenamePosition))) in
      registerLoop positions filenames data n'
        (wrap (i + 2 * size)) filenamePosition dataPosition
        (StdMap.emplace name r res)
  end.

(** The loop as the source steps it: leave when [i] equals
    [count*2*size], else run the body and add [2*size]. [fuel] bounds
    the number of passes. *)
Fixpoint registerLoop_steps (positions filenames data : pointer)
    (fuel : nat) (bound i oldFilenamePosition oldDataPosition : Z)
    (res : StdMap.t ArrayReference) : option (StdMap.t ArrayReference) :=
  if Z.eqb i bound then Some res
  else
    match fuel with
    | O => None
    | S fuel' =>
        let filenamePosition :=
          readUnsigned (ptr_add positions (Z.to_nat i)) in
        let dataPosition :=
          readUnsigned (ptr_add positions (Z.to_nat (i + size))) in
        let r := mkArrayReference
                   (ptr_add data (Z.to_nat oldDataPosition))
                   (Z.to_nat (wrap (dataPosition - oldDataPosition))) in
        let name := load (ptr_add filenames (Z.to_nat oldFilenamePosition))
                      (Z.to_nat (wrap (filenamePosition - oldFilenamePosition))) in
        registerLoop_steps positions filenames data fuel' bound
          (wrap (i + 2 * size)) filenamePosition dataPosition
          (StdMap.emplace name r res)
    end.

(** Number of passes: [i] runs through the multiples of [2*size] up to
    [count*2*size], computed in [unsigned int]. *)
Definition passes (count : Z) : nat :=
  Z.to_nat (wrap (count * 2 * size) / (2 * size)).

(** [Resource::registerData]. The source inserts an empty [GroupData]
    and fills it through the iterator [emplace] returned; here the
    entry is built first and inserted finished. *)
Definition registerData (group : string) (count : Z)
    (positions filenames data : pointer) (reg : registry) : registry :=
  match StdMap.find group reg with
  | Some _ => reg   (* Already registered *)
  | None =>
      StdMap.emplace group
        (GroupData.mk EmptyString
           (registerLoop positions filenames data (passes count) 0 0 0
              StdMap.empty))
        reg
  end.

(** [Resource::unregisterData]. *)
Definition unregisterData (group : string) (reg : registry)
    : outcome unit * registry :=
  match StdMap.find group reg with
  | None =>
      (AssertFailed
         ["Utility::Resource: resource group"; group; "is not registered"]
         tt,
       reg)
  | Some _ => (Returned tt, StdMap.erase group reg)
  end.

(** The loop of [compile] ("Convert data to hexacodes"); [first] tells
    [it == files.begin()]. *)
Fixpoint compileLoop (first : bool) (files : list (string * string))
    (acc : Arrays) : Arrays :=
  match files with
  | [] => acc
  | (name, content) :: rest =>
      let filenamesLen :=
        wrap (c_filenamesLen acc + Z.of_nat (String.length name)) in
      let dataLen :=
        wrap (c_dataLen acc + Z.of_nat (String.length content)) in
      let sep := if first then EmptyString else nl in
      compileLoop false rest
        (mkArrays
           (c_positions acc ++ hexcode (numberToString filenamesLen)
              ++ hexcode (numberToString dataLen))
           (c_filenames acc ++ sep ++ comment name ++ hexcode name)
           (c_data acc ++ sep ++ comment name ++ hexcode content)
           filenamesLen dataLen)
  end.

(** The three array texts as [compile] splices them into the file: after
    the loop and the removal of the last commas. *)
Definition compileArrays (files : list (string * string)) : Arrays :=
  let a := compileLoop true files (mkArrays "" "" "" 0 0) in
  mkArrays
    (removeLast (c_positions a))
    (removeLast (c_filenames a))
    (if String.eqb (snd (last files ("", ""))) ""
     then c_data a else removeLast (c_data a))
    (c_filenamesLen a) (c_dataLen a).

Definition fileHeader : string :=
  "/* Compiled resource file. DO NOT EDIT! */" ++ nl ++ nl ++
  "#include " ++ dquote ++ "Corrade/compatibility.h" ++ dquote ++ nl ++
  "#include " ++ dquote ++ "Corrade/Utility/Macros.h" ++ dquote ++ nl ++
  "#include " ++ dquote ++ "Corrade/Utility/Resource.h" ++ dquote ++ nl ++ nl.

(** The initializer and finalizer functions, [call] being the arguments
    of [registerData] after the group. *)
Definition fileFunctions (name group call : string) : string :=
  "int resourceInitializer_" ++ name ++ "();" ++ nl ++
  "int resourceInitializer_" ++ name ++ "() {" ++ nl ++
  "    Corrade::Utility::Resource::registerData(" ++ dquote ++ group ++
    dquote ++ ", " ++ call ++ ");" ++ nl ++
  "    return 1;" ++ nl ++
  "} CORRADE_AUTOMATIC_INITIALIZER(resourceInitializer_" ++ name ++ ")"
    ++ nl ++ nl ++
  "int resourceFinalizer_" ++ name ++ "();" ++ nl ++
  "int resourceFinalizer_" ++ name ++ "() {" ++ nl ++
  "    Corrade::Utility::Resource::unregisterData(" ++ dquote ++ group ++
    dquote ++ ");" ++ nl ++
  "    return 1;" ++ nl ++
  "} CORRADE_AUTOMATIC_FINALIZER(resourceFinalizer_" ++ name ++ ")" ++ nl.

(** [std::to_string(files.size())]. *)
Definition to_string (n : nat) : string :=
  NilEmpty.string_of_uint (Nat.to_uint n).

(** [Resource::compile]. *)
Definition compile (name group : string) (files : list (string * string))
    : string :=
  match files with
  | [] =>
      (* Special case for empty file list *)
      fileHeader ++ fileFunctions name group "0, nullptr, nullptr, nullptr"
  | _ :: _ =>
      let a := compileArrays files in
      let hasData := negb (Z.eqb (c_dataLen a) 0) in
      fileHeader ++
      "static const unsigned char resourcePositions[] = {" ++
      c_positions a ++ nl ++ "};" ++ nl ++ nl ++
      "static const unsigned char resourceFilenames[] = {" ++
      c_filenames a ++ nl ++ "};" ++ nl ++ nl ++
      (if hasData then "" else "// ") ++
      "static const unsigned char resourceData[] = {" ++
      c_data a ++ nl ++ (if hasData then "" else "// ") ++ "};" ++ nl ++ nl ++
      fileFunctions name group
        (to_string (List.length files) ++
         ", resourcePositions, resourceFilenames, " ++
         (if hasData then "resourceData" else "nullptr"))
  end.

(** [Resource::overrideGroup]. *)
Definition overrideGroup (group configurationFile : string) (reg : registry)
    : outcome unit * registry :=
  match StdMap.find group reg with
  | None =>
      (AssertFailed
         ["Utility::Resource::overrideGroup(): group"; quoted group;
          "was not found"]
         tt,
       reg)
  | Some gd =>
      (Returned tt,
       StdMap.assign group
         (GroupData.mk configurationFile (GroupData.resources gd)) reg)
  end.

(** [Resource::fileContents], with what it prints. *)
Definition fileContents (filename : string)
    : (bool * Array) * Datatypes.list output :=
  if negb (fileExists filename)
  then ((false, nullArray),
        [mkOutput ErrorOutput ["    Error: cannot open file"; filename]])
  else ((true, read filename), []).

(** The constructor [Resource::Resource]. *)
Definition new (reg : registry) (group : string)
    : outcome t * Datatypes.list output :=
  match StdMap.find group reg with
  | None =>
      (AssertFailed
         ["Utility::Resource: group"; quoted group; "was not found"]
         (mk None None),
       [])
  | Some gd =>
      if String.eqb (GroupData.overrideGroup gd) ""
      then (Returned (mk (Some group) None), [])
      else
        let o := OverrideData.mk
                   (loadConfiguration (GroupData.overrideGroup gd))
                   StdMap.empty in
        (Returned (mk (Some group) (Some o)),
         mkOutput DebugOutput
           ["Utility::Resource: group"; quoted group; "overriden with";
            quoted (GroupData.overrideGroup gd)]
         :: (if negb (String.eqb (Configuration.group (OverrideData.conf o))
                        group)
             then [mkOutput WarningOutput
                     ["Utility::Resource: overriden with different group, found";
                      quoted (Configuration.group (OverrideData.conf o));
                      "but expected"; quoted group]]
             else []))
  end.

(** The name an entry of the override manifest is looked up by. *)
Definition entryName (file : ConfigurationGroup.t) : string :=
  match ConfigurationGroup.alias file with
  | Some a => a
  | None => ConfigurationGroup.filename file
  end.

(** [conf.hasValue("group")]. *)
Variable hasGroup : Configuration.t -> bool.

(** The loop of [compileFrom] ("Load all files") with what it prints:
    [total] is [files.size()], [fileData] the pairs read so far. [None]
    stands for a [return {}] from inside the loop. *)
Fixpoint compileFromLoop (dir group : string) (total : nat)
    (files : Datatypes.list ConfigurationGroup.t)
    (fileData : Datatypes.list (string * string))
    : option (Datatypes.list (string * string)) * Datatypes.list output :=
  match files with
  | [] => (Some fileData, [])
  | file :: files' =>
      let reading :=
        mkOutput DebugOutput
          ["Reading file"; to_string (List.length fileData + 1); "of";
           to_string total; "in group"; quoted group] in
      let filename := ConfigurationGroup.filename file in
      let alias := entryName file in
      if String.eqb filename "" || String.eqb alias ""
      then (None,
            [reading;
             mkOutput ErrorOutput ["    Error: filename or alias is empty"]])
      else
        let shown :=
          mkOutput DebugOutput ["   "; filename]
          :: (if negb (String.eqb alias filename)
              then [mkOutput DebugOutput [" ->"; alias]] else []) in
        let '((success, contents), out) := fileContents (join dir filename) in
        if negb success
        then (None, reading :: shown ++ out)
        else
          let '(result, out') :=
            compileFromLoop dir group total files'
              (fileData
               ++ [(alias, load (a_begin contents) (a_size contents))]) in
          (result, reading :: shown ++ out ++ out')
  end.

(** [Resource::compileFrom]: the text returned (empty on failure) and the
    output. The configuration is opened read-only, which bars writing it
    back and nothing else. *)
Definition compileFrom (name configurationFile : string)
    : string * Datatypes.list output :=
  (* Resource file existence *)
  if negb (fileExists configurationFile)
  then (EmptyString,
        [mkOutput ErrorOutput
           ["    Error: file"; configurationFile; "does not exist"]])
  else
    let dir := path configurationFile in
    let conf := loadConfiguration configurationFile in
    (* Group name *)
    if negb (hasGroup conf)
    then (EmptyString,
          [mkOutput ErrorOutput ["    Error: group name is not specified"]])
    else
      let group := Configuration.group conf in
      (* Load all files *)
      let files := Configuration.files conf in
      match compileFromLoop dir group (List.length files) files [] with
      | (None, out) => (EmptyString, out)
      | (Some fileData, out) => (compile name group fileData, out)
      end.

(** The loop of [getRaw] over [conf.groups("file")]: [None] when it ends
    without a match; else the view returned, the cache and the output of
    the first matching entry. *)
Fixpoint overrideLoop (configurationFile : string) (o : OverrideData.t)
    (filename : string) (files : Datatypes.list ConfigurationGroup.t)
    : option (ArrayReference * OverrideData.t * Datatypes.list output) :=
  match files with
  | [] => None
  | file :: files' =>
      if negb (String.eqb (entryName file) filename)
      then overrideLoop configurationFile o filename files'
      else
        (* Load the file *)
        let '((success, contents), out) :=
          fileContents (join (path configurationFile)
                          (ConfigurationGroup.filename file)) in
        if negb success
        then Some (nullReference, o, out)
        else
          (* Save the file for later use and return *)
          Some (mkArrayReference (a_begin contents) (a_size contents),
                OverrideData.mk (OverrideData.conf o)
                  (StdMap.emplace filename contents (OverrideData.data o)),
                out)
  end.

(** The lookup in the compiled-in resources that ends [getRaw]. *)
Definition compiledIn (group : string) (gd : GroupData.t) (filename : string)
    : outcome ArrayReference :=
  match StdMap.find filename (GroupData.resources gd) with
  | None =>
      AssertFailed
        ["Utility::Resource::get(): file"; quoted filename;
         "was not found in group"; quoted group]
        nullReference
  | Some r => Returned r
  end.

(** [Resource::getRaw]: the result, the handle with its cache after the
    call, and the output. A handle whose group has been unregistered
    holds an invalid iterator; the model lets the internal assertion
    catch that case as well. *)
Definition getRaw (reg : registry) (r : t) (filename : string)
    : outcome ArrayReference * t * Datatypes.list output :=
  match _group r with
  | None => (InternalAssertFailed, r, [])
  | Some g =>
      match StdMap.find g reg with
      | None => (InternalAssertFailed, r, [])
      | Some gd =>
          match _overrideGroup r with
          | Some o =>
              (* The group is overriden with live data *)
              match StdMap.find filename (OverrideData.data o) with
              | Some a =>
                  (* The file is already loaded *)
                  (Returned (mkArrayReference (a_begin a) (a_size a)), r, [])
              | None =>
                  match overrideLoop (GroupData.overrideGroup gd) o filename
                          (Configuration.files (OverrideData.conf o)) with
                  | Some (view, o', out) =>
                      (Returned view, mk (_group r) (Some o'), out)
                  | None =>
                      (* The file was not found, fallback to compiled-in
                         ones *)
                      (compiledIn g gd filename, r,
                       [mkOutput WarningOutput
                          ["Utility::Resource::get(): file"; quoted filename;
                           "was not found in overriden group, fallback to compiled-in resources"]])
                  end
              end
          | None => (compiledIn g gd filename, r, [])
          end
      end
  end.

(** [Resource::get]. *)
Definition get (reg : registry) (r : t) (filename : string)
    : outcome string * t * Datatypes.list output :=
  let '(result, r', out) := getRaw reg r filename in
  (outcome_map
     (fun data =>
        if nonNull data then load (ar_data data) (ar_size data)
        else EmptyString)
     result,
   r', out).

(** [Resource::list]. *)
Definition list (reg : registry) (r : t) : outcome (Datatypes.list string) :=
  match _group r with
  | None => InternalAssertFailed
  | Some g =>
      match StdMap.find g reg with
      | None => InternalAssertFailed
      | Some gd => Returned (StdMap.keys (GroupData.resources gd))
      end
  end.

End Platform.

End Resource.

(* ------------------------------------------------------------------ *)
(** ** Reading the emitted file back

    What the initializer of the emitted file passes to [registerData] is
    fixed by how a C++ compiler reads the file. The reader below follows
    the text character by character; it covers files of the shape
    [compile] writes -- the three [#include] lines, up to three
    [unsigned char] arrays, the initializer and the finalizer function --
    and answers [None] for every other text, ill-formed or not. *)

(** Translation phases 1 and 2 replace trigraphs and splice lines that
    end in a backslash before comments, literals and tokens are
    recognised. The reader covers the texts these phases leave as they
    are: a backslash or a question mark, wherever it stands, is outside
    of what it reads. *)
Definition ordinary (c : ascii) : bool :=
  let n := N_of_ascii c in
  (negb (n =? 92) && negb (n =? 63))%N.

(** The brace initializer of an [unsigned char] array: white space, block
    comments, hexadecimal literals and commas (a trailing comma is
    allowed). *)
Inductive lexState : Type :=
| Elem                   (* an element or the end may follow *)
| Sep                    (* a comma or the end may follow *)
| Slash (after : bool)   (* '/' read; [after]: an element came before *)
| Block (after : bool)   (* inside a comment *)
| BlockStar (after : bool) (* inside a comment, '*' just read *)
| Lit0                   (* '0' read *)
| LitX                   (* "0x" read *)
| Lit (v : N).           (* "0x" and digits of value [v] read *)

(** Space, new-line and horizontal tab. *)
Definition isSpace (c : ascii) : bool :=
  let n := N_of_ascii c in
  ((n =? 32) || (n =? 10) || (n =? 9))%N.

Definition hexval (c : ascii) : option N :=
  let n := N_of_ascii c in
  if ((48 <=? n) && (n <=? 57))%N then Some (n - 48)%N
  else if ((97 <=? n) && (n <=? 102))%N then Some (n - 87)%N
  else if ((65 <=? n) && (n <=? 70))%N then Some (n - 55)%N
  else None.

Definition afterElement (after : bool) : lexState :=
  if after then Sep else Elem.

(** The element a finished literal denotes; a value that does not fit
    [unsigned char] is a narrowing error. *)
Definition literal (v : N) : option ascii :=
  if (v <? 256)%N then Some (ascii_of_N v) else None.

(** One character: the next state and the element completed by it, if
    any. A comment ends with the next asterisk that a slash follows. *)
Definition lexStep (st : lexState) (c : ascii)
    : option (lexState * option ascii) :=
  if negb (ordinary c) then None else
  match st with
  | Elem =>
      if isSpace c then Some (Elem, None)
      else if Ascii.eqb c "/" then Some (Slash false, None)
      else if Ascii.eqb c "0" then Some (Lit0, None)
      else None
  | Sep =>
      if isSpace c then Some (Sep, None)
      else if Ascii.eqb c "/" then Some (Slash true, None)
      else if Ascii.eqb c "," then Some (Elem, None)
      else None
  | Slash after =>
      if Ascii.eqb c "*" then Some (Block after, None) else None
  | Block after =>
      if Ascii.eqb c "*" then Some (BlockStar after, None)
      else Some (Block after, None)
  | BlockStar after =>
      if Ascii.eqb c "/" then Some (afterElement after, None)
      else if Ascii.eqb c "*" then Some (BlockStar after, None)
      else Some (Block after, None)
  | Lit0 => if Ascii.eqb c "x" then Some (LitX, None) else None
  | LitX =>
      match hexval c with
      | Some d => Some (Lit d, None)
      | None => None
      end
  | Lit v =>
      match hexval c with
      | Some d => Some (Lit (16 * v + d), None)
      | None =>
          match literal v with
          | None => None
          | Some b =>
              if isSpace c then Some (Sep, Some b)
              else if Ascii.eqb c "," then Some (Elem, Some b)
              else if Ascii.eqb c "/" then Some (Slash true, Some b)
              else None
          end
      end
  end.

(** The closing brace. *)
Definition lexEnd (st : lexState) : option string :=
  match st with
  | Elem | Sep => Some EmptyString
  | Lit v => option_map (fun b => String b EmptyString) (literal v)
  | _ => None
  end.

Fixpoint initializer (st : lexState) (text : string) : option string :=
  match text with
  | EmptyString => lexEnd st
  | String c text' =>
      match lexStep st c with
      | None => None
      | Some (st', None) => initializer st' text'
      | Some (st', Some b) => option_map (String b) (initializer st' text')
      end
  end.

Fixpoint allChars (p : ascii -> bool) (s : string) : bool :=
  match s with
  | EmptyString => true
  | String c s' => p c && allChars p s'
  end.

Definition bind {A B : Type} (x : option A) (f : A -> option B) : option B :=
  match x with
  | Some a => f a
  | None => None
  end.

Notation "x <- e ;; k" := (bind e (fun x => k))
  (at level 61, e at next level, right associativity).
Notation "' p <- e ;; k" := (bind e (fun p => k))
  (at level 61, p pattern, e at next level, right associativity).

(** The given characters, and the text after them. *)
Fixpoint expect (chars text : string) {struct text} : option string :=
  match text with
  | EmptyString =>
      match chars with
      | EmptyString => Some text
      | String _ _ => None
      end
  | String c' text' =>
      match chars with
      | EmptyString => Some text
      | String c chars' =>
          if Ascii.eqb c c' then expect chars' text' else None
      end
  end.

(** White space and comments between two tokens: the text from the next
    token on. A comment that is not closed is an error; a carriage return
    inside a line comment is not covered. *)
Inductive blankState : Type :=
| Code
| LineComment
| BlockComment (star : bool).   (* [star]: an asterisk was just read *)

Fixpoint blanks (st : blankState) (text : string) : option string :=
  match text with
  | EmptyString =>
      match st with
      | BlockComment _ => None
      | _ => Some EmptyString
      end
  | String c text' =>
      match st with
      | Code =>
          if isSpace c then blanks Code text'
          else if Ascii.eqb c "/" then
            match text' with
            | String c' text'' =>
                if Ascii.eqb c' "*" then blanks (BlockComment false) text''
                else if Ascii.eqb c' "/" then blanks LineComment text''
                else Some text
            | EmptyString => Some text
            end
          else Some text
      | LineComment =>
          if (N_of_ascii c =? 10)%N then blanks Code text'
          else if (N_of_ascii c =? 13)%N then None
          else blanks LineComment text'
      | BlockComment star =>
          if star && Ascii.eqb c "/" then blanks Code text'
          else blanks (BlockComment (Ascii.eqb c "*")) text'
      end
  end.

(** An identifier: the longest run of letters, digits and underscores. *)
Definition identChar (c : ascii) : bool :=
  let n := N_of_ascii c in
  ((48 <=? n) && (n <=? 57) || (65 <=? n) && (n <=? 90)
   || (97 <=? n) && (n <=? 122) || (n =? 95))%N.

Fixpoint identifier (text : string) : string * string :=
  match text with
  | EmptyString => (EmptyString, EmptyString)
  | String c text' =>
      if identChar c
      then let (name, rest) := identifier text' in (String c name, rest)
      else (EmptyString, text)
  end.

(** A string literal after its opening quote: the characters it denotes
    and the text after the closing quote. Covered are the printable
    characters that stand for themselves; no escape sequence, no
    trigraph. *)
Definition literalChar (c : ascii) : bool :=
  let n := N_of_ascii c in
  ((32 <=? n) && (n <=? 126)
   && negb (n =? 34) && negb (n =? 92) && negb (n =? 63))%N.

Fixpoint stringLiteral (text : string) : option (string * string) :=
  match text with
  | EmptyString => None
  | String c text' =>
      if (N_of_ascii c =? 34)%N then Some (EmptyString, text')
      else if literalChar c then
        match stringLiteral text' with
        | Some (s, rest) => Some (String c s, rest)
        | None => None
        end
      else None
  end.

(** A decimal literal: its value and the text after it. A zero ends the
    literal (what follows a leading zero would make it octal); a value
    beyond [long long] is an error. *)
Definition digitOf (c : ascii) : option Z :=
  let n := N_of_ascii c in
  if ((48 <=? n) && (n <=? 57))%N then Some (Z.of_N n - 48)%Z else None.

Fixpoint digits (acc : Z) (text : string) : Z * string :=
  match text with
  | EmptyString => (acc, EmptyString)
  | String c text' =>
      match digitOf c with
      | Some d => digits (10 * acc + d) text'
      | None => (acc, text)
      end
  end.

Definition decimalLiteral (text : string) : option (Z * string) :=
  match text with
  | EmptyString => None
  | String c text' =>
      match digitOf c with
      | None => None
      | Some Z0 => Some (0%Z, text')
      | Some d =>
          let (v, rest) := digits d text' in
          if (v <? 2 ^ 63)%Z then Some (v, rest) else None
      end
  end.

(** The brace initializer of an array up to its closing brace: the
    elements, and the text after the brace. *)
Definition commented (st : lexState) : bool :=
  match st with
  | Block _ | BlockStar _ => true
  | _ => false
  end.

Fixpoint arrayBody (st : lexState) (text : string)
    : option (string * string) :=
  match text with
  | EmptyString => None
  | String c text' =>
      if Ascii.eqb c "}" && negb (commented st)
      then option_map (fun bs => (bs, text')) (lexEnd st)
      else
        match lexStep st c with
        | None => None
        | Some (st', None) => arrayBody st' text'
        | Some (st', Some b) =>
            match arrayBody st' text' with
            | Some (bs, rest) => Some (String b bs, rest)
            | None => None
            end
        end
  end.

(** [static const unsigned char resource<Name>[] = { ... };]: the name of
    the array, the array and the text after the definition. An array
    without elements is not allowed. *)
Definition arrayDefinition (text : string)
    : option (string * pointer * string) :=
  t <- expect "static const unsigned char resource" text;;
  let (name, t) := identifier t in
  t <- expect "[] = {" t;;
  '(bs, t) <- arrayBody Elem t;;
  t <- expect ";" t;;
  match bs with
  | EmptyString => None
  | String _ _ => Some (("resource" ++ name)%string, Ptr bs 0, t)
  end.

(** The arrays defined so far, by name. *)
Definition arrays : Type := list (string * pointer).

Fixpoint array (name : string) (defined : arrays) : option pointer :=
  match defined with
  | [] => None
  | (name', p) :: defined' =>
      if String.eqb name name' then Some p else array name defined'
  end.

(** At most [n] array definitions one after the other; defining a name
    twice is an error. *)
Fixpoint arrayDefinitions (n : nat) (defined : arrays) (text : string)
    : option (arrays * string) :=
  match n with
  | O => Some (defined, text)
  | S n' =>
      match arrayDefinition text with
      | None => Some (defined, text)
      | Some (name, p, t) =>
          match array name defined with
          | Some _ => None
          | None =>
              t <- blanks Code t;;
              arrayDefinitions n' ((name, p) :: defined) t
          end
      end
  end.

(** An argument of pointer type: [nullptr] or the name of an array. *)
Definition argument (defined : arrays) (text : string)
    : option (pointer * string) :=
  let (name, t) := identifier text in
  if String.eqb name "nullptr" then Some (nullptr, t)
  else option_map (fun p => (p, t)) (array name defined).

(** What the initializer of the emitted file passes to [registerData]. *)
Record Registration : Type := mkRegistration {
  r_group : string;
  r_count : Z;
  r_positions : pointer;
  r_filenames : pointer;
  r_data : pointer
}.

(** The declaration and the definition of [resourceInitializer_<name>],
    registered with [CORRADE_AUTOMATIC_INITIALIZER]: the name, the call
    in its body and the text after it. The count is converted to
    [unsigned int]. *)
Definition initializerFunction (defined : arrays) (text : string)
    : option (string * Registration * string) :=
  t <- expect "int resourceInitializer_" text;;
  let (name, t) := identifier t in
  t <- expect "();" t;;
  t <- blanks Code t;;
  t <- expect "int resourceInitializer_" t;;
  t <- expect name t;;
  t <- expect "() {" t;;
  t <- blanks Code t;;
  t <- expect "Corrade::Utility::Resource::registerData(" t;;
  t <- expect dquote t;;
  '(group, t) <- stringLiteral t;;
  t <- expect ", " t;;
  '(count, t) <- decimalLiteral t;;
  t <- expect ", " t;;
  '(positions, t) <- argument defined t;;
  t <- expect ", " t;;
  '(filenames, t) <- argument defined t;;
  t <- expect ", " t;;
  '(data, t) <- argument defined t;;
  t <- expect ");" t;;
  t <- blanks Code t;;
  t <- expect "return 1;" t;;
  t <- blanks Code t;;
  t <- expect "} CORRADE_AUTOMATIC_INITIALIZER(resourceInitializer_" t;;
  t <- expect name t;;
  t <- expect ")" t;;
  Some (name, mkRegistration group (wrap count) positions filenames data, t).

(** The declaration and the definition of [resourceFinalizer_<name>]. *)
Definition finalizerFunction (name : string) (text : string)
    : option string :=
  t <- expect "int resourceFinalizer_" text;;
  t <- expect name t;;
  t <- expect "();" t;;
  t <- blanks Code t;;
  t <- expect "int resourceFinalizer_" t;;
  t <- expect name t;;
  t <- expect "() {" t;;
  t <- blanks Code t;;
  t <- expect "Corrade::Utility::Resource::unregisterData(" t;;
  t <- expect dquote t;;
  '(_, t) <- stringLiteral t;;
  t <- expect ");" t;;
  t <- blanks Code t;;
  t <- expect "return 1;" t;;
  t <- blanks Code t;;
  t <- expect "} CORRADE_AUTOMATIC_FINALIZER(resourceFinalizer_" t;;
  t <- expect name t;;
  expect ")" t.

(** [#include "<header>"] on a line of its own. *)
Definition includeDirective (header : string) (text : string)
    : option string :=
  t <- expect "#include " text;;
  t <- expect dquote t;;
  t <- expect header t;;
  t <- expect dquote t;;
  expect nl t.

(** The head of the file: the three headers, up to the first
    declaration. *)
Definition prolog (text : string) : option string :=
  t <- blanks Code text;;
  t <- includeDirective "Corrade/compatibility.h" t;;
  t <- blanks Code t;;
  t <- includeDirective "Corrade/Utility/Macros.h" t;;
  t <- blanks Code t;;
  t <- includeDirective "Corrade/Utility/Resource.h" t;;
  blanks Code t.

(** The two functions up to the end of the file: the call of the
    initializer. A function that bears the name of an array is an
    error. *)
Definition functions (defined : arrays) (text : string)
    : option Registration :=
  '(name, call, t) <- initializerFunction defined text;;
  t <- blanks Code t;;
  t <- finalizerFunction name t;;
  t <- blanks Code t;;
  match array ("resourceInitializer_" ++ name) defined,
        array ("resourceFinalizer_" ++ name) defined, t with
  | None, None, EmptyString => Some call
  | _, _, _ => None
  end.

(** The whole file: the call of its initializer. *)
Definition emittedCall (text : string) : option Registration :=
  if allChars ordinary text then
    t <- prolog text;;
    '(defined, t) <- arrayDefinitions 3 [] t;;
    functions defined t
  else None.

(** Modelled from the spec: [CORRADE_AUTOMATIC_INITIALIZER] (its header
    is not among the sources at hand) makes the function run once when
    the process starts. Running it is the call in its body, on the
    registry of that moment. *)
Definition runInitializer (order : byte_order) (call : Registration)
    (reg : registry) : registry :=
  Resource.registerData order (r_group call) (r_count call)
    (r_positions call) (r_filenames call) (r_data call) reg.


(* ================================================================== *)
(** * Reachable states *)

(** The registries the three static functions build from the empty
    one. *)
Inductive reachable (order : byte_order) : registry -> Prop :=
| reach_empty : reachable order StdMap.empty
| reach_register group count positions filenames data reg :
    reachable order reg ->
    reachable order
      (Resource.registerData order group count positions filenames data reg)
| reach_unregister group reg :
    reachable order reg ->
    reachable order (snd (Resource.unregisterData group reg))
| reach_override group configurationFile reg :
    reachable order reg ->
    reachable order (snd (Resource.overrideGroup group configurationFile reg)).

(** Every manifest of the registry has its keys in order. *)
Definition manifests_ordered (reg : registry) : Prop :=
  Forall (fun e => StdMap.ordered (GroupData.resources (snd e))) reg.

(** The first entry of the manifest whose name is [name]. *)
Definition firstMatch (name : string) (files : list ConfigurationGroup.t)
    : option ConfigurationGroup.t :=
  List.find (fun file => String.eqb (Resource.entryName file) name) files.

Section Handles.

Variable fileExists : string -> bool.
Variable read : string -> Array.
Variable join : string -> string -> string.
Variable path : string -> string.
Variable loadConfiguration : string -> Configuration.t.
Variable reg : registry.

(** The handles on [reg]: constructed, then used for any number of
    [getRaw] calls, the registry and the files on disk staying as they
    are. *)
Inductive handle : Resource.t -> Prop :=
| handle_new group r out :
    Resource.new loadConfiguration reg group = (Returned r, out) ->
    handle r
| handle_getRaw r filename result r' out :
    handle r ->
    Resource.getRaw fileExists read join path reg r filename
      = (result, r', out) ->
    handle r'.

(** What the cache of a handle holds: files that the first matching entry
    of the manifest names, as they were read. *)
Definition cached (configurationFile : string) (o : OverrideData.t) : Prop :=
  forall name a,
    StdMap.find name (OverrideData.data o) = Some a ->
    exists file,
      firstMatch name (Configuration.files (OverrideData.conf o)) = Some file /\
      fileExists (join (path configurationFile)
                    (ConfigurationGroup.filename file)) = true /\
      a = read (join (path configurationFile)
                  (ConfigurationGroup.filename file)).

(** The state of a handle: bound to a registered group; without an
    override only when the group has no override path, and else with a
    cache filled from the manifest. *)
Definition bound (r : Resource.t) : Prop :=
  exists g gd,
    Resource._group r = Some g /\ StdMap.find g reg = Some gd /\
    match Resource._overrideGroup r with
    | None => GroupData.overrideGroup gd = EmptyString
    | Some o => cached (GroupData.overrideGroup gd) o
    end.

(** The path [getRaw] loads an entry of the override manifest from. *)
Definition overridePath (gd : GroupData.t) (file : ConfigurationGroup.t)
    : string :=
  join (path (GroupData.overrideGroup gd)) (ConfigurationGroup.filename file).

(** What [getRaw] answers from the file at [p] after a cache miss: the
    view of the buffer now cached, or the null view and the error
    [fileContents] printed. *)
Definition loaded (r : Resource.t) (o : OverrideData.t) (filename p : string)
    : outcome ArrayReference * Resource.t * list output :=
  if fileExists p
  then (Returned (mkArrayReference (a_begin (read p)) (a_size (read p))),
        Resource.mk (Resource._group r)
          (Some (OverrideData.mk (OverrideData.conf o)
                   (StdMap.emplace filename (read p) (OverrideData.data o)))),
        [])
  else (Returned nullReference, r,
        [mkOutput ErrorOutput ["    Error: cannot open file"; p]]).

End Handles.

(** The warning of [getRaw] when the override manifest has no entry. *)
Definition fallbackWarning (filename : string) : output :=
  mkOutput WarningOutput
    ["Utility::Resource::get(): file"; quoted filename;
     "was not found in overriden group, fallback to compiled-in resources"].

(* ================================================================== *)
(** * The arrays and the manifest of a file list *)

(** The bytes of the positions array: per file the two running totals of
    [compile], starting from [filenamesLen] and [dataLen]. *)
Fixpoint positionsOf (order : byte_order) (filenamesLen dataLen : Z)
    (files : list (string * string)) : string :=
  match files with
  | [] => EmptyString
  | (name, content) :: rest =>
      let filenamesLen' := wrap (filenamesLen + Z.of_nat (String.length name)) in
      let dataLen' := wrap (dataLen + Z.of_nat (String.length content)) in
      Resource.numberToString order filenamesLen' ++
      Resource.numberToString order dataLen' ++
      positionsOf order filenamesLen' dataLen' rest
  end.

(** The names, and the contents, one after the other. *)
Fixpoint namesOf (files : list (string * string)) : string :=
  match files with
  | [] => EmptyString
  | (name, _) :: rest => name ++ namesOf rest
  end.

Fixpoint contentsOf (files : list (string * string)) : string :=
  match files with
  | [] => EmptyString
  | (_, content) :: rest => content ++ contentsOf rest
  end.

(** The map from names to contents that emplacing the files in their
    order builds: of two files with one name the first stays. *)
Definition manifestOf (files : list (string * string)) : StdMap.t string :=
  fold_left (fun m f => StdMap.emplace (fst f) (snd f) m) files StdMap.empty.

(** A manifest read back: every view replaced by the bytes it
    designates. *)
Definition entries (m : StdMap.t ArrayReference) : StdMap.t string :=
  map (fun e => (fst e, bytes (snd e))) m.

(** The views the loop of [registerData] emplaces for [files] when the
    contents lie one after the other from [data + off]. *)
Fixpoint viewsOf (data : pointer) (off : nat) (files : list (string * string))
    (res : StdMap.t ArrayReference) : StdMap.t ArrayReference :=
  match files with
  | [] => res
  | (name, content) :: rest =>
      viewsOf data (off + String.length content) rest
        (StdMap.emplace name
           (mkArrayReference (ptr_add data off) (String.length content)) res)
  end.

(** Whether a text holds the two characters that end a block comment. *)
Fixpoint closesComment (s : string) : bool :=
  match s with
  | EmptyString => false
  | String c s' =>
      match s' with
      | String c' _ =>
          (Ascii.eqb c "*" && Ascii.eqb c' "/") || closesComment s'
      | EmptyString => false
      end
  end.

(** A name that stands in a comment of the emitted file as it is: it
    holds no comment end, and nothing that the translation phases before
    the comments rewrite. *)
Definition commentSafe (s : string) : bool :=
  negb (closesComment s) && allChars ordinary s.

(** A name for the two functions of the emitted file: it continues the
    identifier [resourceInitializer_]. *)
Definition isIdentifier (s : string) : bool := allChars identChar s.

(** A group that stands for itself between the quotes of a string
    literal. *)
Definition plainLiteral (s : string) : bool := allChars literalChar s.

(** A piece of array text that stands for the bytes [bs]: read from
    between two elements, it yields [bs] and leaves the reader between
    two elements. *)
Definition denotes (piece bs : string) : Prop :=
  forall rest,
    initializer Elem (piece ++ rest) =
    option_map (String.append bs) (initializer Elem rest).

(** Inside a comment: [star] tells that an asterisk was just read. *)
Definition inComment (star : bool) : lexState :=
  if star then BlockStar false else Block false.

(** A text whose last character is a comma. *)
Definition endsComma (s : string) : Prop := exists t, s = (t ++ ",")%string.

(** A piece that reads as white space: after a token, and at the end of
    a line comment. *)
Definition blank (piece : string) : Prop :=
  forall rest, blanks Code (piece ++ rest) = blanks Code rest.

Definition endsLine (piece : string) : Prop :=
  forall rest, blanks LineComment (piece ++ rest) = blanks Code rest.

(* ================================================================== *)
(** * Example data *)

Module Example.

(** The files of the end-to-end example of the specification, and the
    registry after their initializer ran. *)
Definition files : list (string * string) :=
  [("shader.vert", "void main(){}"); ("readme.txt", "")].

Definition run (group : string) (fs : list (string * string)) : registry :=
  match emittedCall (Resource.compile LittleEndian "res" group fs) with
  | Some call => runInitializer LittleEndian call StdMap.empty
  | None => StdMap.empty
  end.

Definition assets : registry := run "assets" files.

Definition assetsHandle : Resource.t := Resource.mk (Some "assets") None.

(** A group with two compiled-in files, overridden from a development
    tree in which [a.txt] exists and [c.txt] does not. *)
Definition compiled : registry := run "G" [("a", "old"); ("b", "old")].

Definition overridden : registry :=
  snd (Resource.overrideGroup "G" "dev/resources.conf" compiled).

Definition fileExists (p : string) : bool := String.eqb p "dev/a.txt".

Definition read (p : string) : Array :=
  if String.eqb p "dev/a.txt" then mkArray (Ptr "new" 0) 3 else nullArray.

Definition join (dir file : string) : string := dir ++ "/" ++ file.

Definition path (file : string) : string :=
  if String.eqb file "dev/resources.conf" then "dev" else "".

Definition manifest : Configuration.t :=
  Configuration.mk "G"
    [ConfigurationGroup.mk "a.txt" (Some "a");
     ConfigurationGroup.mk "c.txt" (Some "c");
     ConfigurationGroup.mk "z.txt" (Some "a")].

Definition loadConfiguration (file : string) : Configuration.t :=
  if String.eqb file "dev/resources.conf" then manifest
  else Configuration.mk "" [].

Definition groupG : GroupData.t :=
  GroupData.mk "dev/resources.conf"
    [("a", mkArrayReference (Ptr "oldold" 0) 3);
     ("b", mkArrayReference (Ptr "oldold" 3) 3)].

Definition override : OverrideData.t := OverrideData.mk manifest StdMap.empty.

Definition handleG : Resource.t := Resource.mk (Some "G") (Some override).

End Example.

(** The data array the emitted initializer passes: none when no file has
    content ([compile] comments the array out and passes [nullptr]). *)
Definition emittedData (files : list (string * string)) : pointer :=
  match contentsOf files with
  | EmptyString => nullptr
  | String _ _ => Ptr (contentsOf files) 0
  end.

(* ================================================================== *)
(** * Packaging from a configuration file *)

Section PackagingEntries.

Variable fileExists : string -> bool.
Variable read : string -> Array.
Variable join : string -> string -> string.

(** An entry [compileFrom] gets through: its filename and its alias are
    not empty and its file is there. *)
Definition loadable (dir : string) (file : ConfigurationGroup.t) : bool :=
  negb (String.eqb (ConfigurationGroup.filename file) "") &&
  negb (String.eqb (Resource.entryName file) "") &&
  fileExists (join dir (ConfigurationGroup.filename file)).

(** The pair [compileFrom] hands to [compile] for an entry: the alias and
    the bytes of the file. *)
Definition fileDataOf (dir : string) (file : ConfigurationGroup.t)
    : string * string :=
  (Resource.entryName file,
   load (a_begin (read (join dir (ConfigurationGroup.filename file))))
        (a_size (read (join dir (ConfigurationGroup.filename file))))).

End PackagingEntries.

Definition isError (o : output) : bool :=
  match level o with
  | ErrorOutput => true
  | _ => false
  end.

(** A source tree to package: a shader, and an empty file with an
    alias. *)
Module Packaging.

Definition fileExists (p : string) : bool :=
  String.eqb p "res/resources.conf" || String.eqb p "res/shader.vert"
  || String.eqb p "res/readme.txt".

Definition read (p : string) : Array :=
  if String.eqb p "res/shader.vert"
  then mkArray (Ptr "void main(){}" 0) 13 else nullArray.

Definition join (dir file : string) : string := dir ++ "/" ++ file.

Definition path (file : string) : string := "res".

Definition manifest : Configuration.t :=
  Configuration.mk "assets"
    [ConfigurationGroup.mk "shader.vert" None;
     ConfigurationGroup.mk "readme.txt" (Some "README")].

Definition loadConfiguration (file : string) : Configuration.t := manifest.

Definition hasGroup (conf : Configuration.t) : bool :=
  negb (String.eqb (Configuration.group conf) "").

End Packaging.

(* ================================================================== *)
(** * Properties *)

(* ------------------------------------------------------------------ *)
(** ** Facts on the string order and on the map operations *)

Lemma slt_lts (a b : string) : StdMap.slt a b <-> String_as_OT.lt a b.
Proof.
  unfold StdMap.slt, String.ltb.
  rewrite <- String_as_OT.cmp_lt. unfold String_as_OT.cmp.
  destruct (String.compare a b); split; intro H; congruence.
Qed.

Lemma slt_trans (a b c : string) :
  StdMap.slt a b -> StdMap.slt b c -> StdMap.slt a c.
Proof.
  rewrite !slt_lts. apply String_as_OT.lt_trans.
Qed.

Lemma slt_irrefl (a : string) : ~ StdMap.slt a a.
Proof.
  rewrite slt_lts. intro H.
  exact (String_as_OT.lt_not_eq _ _ H eq_refl).
Qed.

Lemma ltb_false_neq_slt (a b : string) :
  String.ltb a b = false -> a <> b -> StdMap.slt b a.
Proof.
  unfold StdMap.slt, String.ltb. intros H Hne.
  rewrite (String.compare_antisym b a).
  destruct (String.compare a b) eqn:E; simpl; try reflexivity; try discriminate.
  apply String.compare_eq_iff in E. contradiction.
Qed.

Section MapFacts.
Context {V : Type}.
Implicit Types (m : StdMap.t V) (k : string) (v : V).

Lemma find_In m k v : StdMap.find k m = Some v -> In (k, v) m.
Proof.
  induction m as [|[k' v'] m IH]; simpl; [discriminate|].
  destruct (String.eqb_spec k k') as [->|Hne]; intro H.
  - injection H as ->. now left.
  - right. auto.
Qed.

Lemma find_None_keys m k : StdMap.find k m = None <-> ~ In k (StdMap.keys m).
Proof.
  induction m as [|[k' v'] m IH]; simpl.
  - split; auto.
  - destruct (String.eqb_spec k k') as [->|Hne].
    + split; [discriminate|]. intro H. exfalso. apply H. now left.
    + rewrite IH. split; intro H.
      * intros [E|E]; [congruence|auto].
      * intro E. apply H. now right.
Qed.

Lemma find_insert_same m k v :
  StdMap.find k m = None -> StdMap.find k (StdMap.insert k v m) = Some v.
Proof.
  induction m as [|[k' v'] m IH]; simpl.
  - now rewrite String.eqb_refl.
  - destruct (String.eqb_spec k k') as [->|Hne]; [discriminate|].
    intro H. destruct (String.ltb k k'); simpl.
    + now rewrite String.eqb_refl.
    + destruct (String.eqb_spec k k'); [contradiction|auto].
Qed.

Lemma find_insert_other m k k' v :
  k' <> k -> StdMap.find k' (StdMap.insert k v m) = StdMap.find k' m.
Proof.
  intro Hne. induction m as [|[k0 v0] m IH]; simpl.
  - destruct (String.eqb_spec k' k); [contradiction|reflexivity].
  - destruct (String.ltb k k0); simpl.
    + destruct (String.eqb_spec k' k); [contradiction|reflexivity].
    + now rewrite IH.
Qed.

Lemma find_emplace_same m k v :
  StdMap.find k (StdMap.emplace k v m) =
  match StdMap.find k m with Some v' => Some v' | None => Some v end.
Proof.
  unfold StdMap.emplace. destruct (StdMap.find k m) eqn:E.
  - now rewrite E.
  - now apply find_insert_same.
Qed.

Lemma find_emplace_other m k k' v :
  k' <> k -> StdMap.find k' (StdMap.emplace k v m) = StdMap.find k' m.
Proof.
  intro Hne. unfold StdMap.emplace.
  destruct (StdMap.find k m); [reflexivity|now apply find_insert_other].
Qed.

Lemma insert_Permutation m k v :
  Permutation (StdMap.insert k v m) ((k, v) :: m).
Proof.
  induction m as [|[k' v'] m IH]; simpl; [reflexivity|].
  destruct (String.ltb k k'); [reflexivity|].
  rewrite IH. apply perm_swap.
Qed.

Lemma keys_insert_In m k v x :
  In x (StdMap.keys (StdMap.insert k v m)) <-> x = k \/ In x (StdMap.keys m).
Proof.
  unfold StdMap.keys.
  rewrite (Permutation_in' (eq_refl x)
             (Permutation_map fst (insert_Permutation m k v))).
  simpl. intuition.
Qed.

Lemma insert_ordered m k v :
  StdMap.ordered m -> StdMap.find k m = None ->
  StdMap.ordered (StdMap.insert k v m).
Proof.
  unfold StdMap.ordered.
  induction m as [|[k' v'] m IH]; simpl; intros Hs Hf.
  - repeat constructor.
  - destruct (String.eqb_spec k k') as [->|Hne]; [discriminate|].
    inversion Hs as [|? ? Hs' Hall]; subst.
    destruct (String.ltb k k') eqn:Hlt; simpl.
    + constructor; [assumption|].
      constructor; [exact Hlt|].
      eapply Forall_impl; [|exact Hall].
      intros a Ha. eapply slt_trans; [exact Hlt|exact Ha].
    + constructor; [now apply IH|].
      apply Forall_forall. intros x Hx.
      apply (keys_insert_In m k v) in Hx. destruct Hx as [->|Hx].
      * now apply ltb_false_neq_slt.
      * rewrite Forall_forall in Hall. now apply Hall.
Qed.

Lemma emplace_ordered m k v :
  StdMap.ordered m -> StdMap.ordered (StdMap.emplace k v m).
Proof.
  intro Hs. unfold StdMap.emplace.
  destruct (StdMap.find k m) eqn:E; [assumption|now apply insert_ordered].
Qed.

Lemma ordered_NoDup m : StdMap.ordered m -> NoDup (StdMap.keys m).
Proof.
  unfold StdMap.ordered. generalize (StdMap.keys m) as l.
  induction l as [|a l IH]; intro Hs; [constructor|].
  inversion Hs as [|? ? Hs' Hall]; subst.
  constructor; [|auto].
  intro Hin. rewrite Forall_forall in Hall.
  exact (slt_irrefl a (Hall a Hin)).
Qed.

Lemma find_erase_same m k :
  StdMap.ordered m -> StdMap.find k (StdMap.erase k m) = None.
Proof.
  intro Hs. apply ordered_NoDup in Hs.
  induction m as [|[k' v'] m IH]; simpl in *; [reflexivity|].
  inversion Hs as [|? ? Hn Hd]; subst.
  destruct (String.eqb_spec k k') as [->|Hne].
  - now apply find_None_keys.
  - simpl. destruct (String.eqb_spec k k'); [contradiction|auto].
Qed.

End MapFacts.

(* ------------------------------------------------------------------ *)
(** ** Lists in the same order *)

Lemma sorted_NoDup (l : list string) :
  StronglySorted StdMap.slt l -> NoDup l.
Proof.
  induction 1 as [|a l _ IH Hall]; constructor; [|exact IH].
  intro Hin. rewrite Forall_forall in Hall.
  exact (slt_irrefl a (Hall a Hin)).
Qed.

Lemma sorted_unique (l : list string) :
  forall l',
    StronglySorted StdMap.slt l -> StronglySorted StdMap.slt l' ->
    (forall x, In x l <-> In x l') ->
    l = l'.
Proof.
  induction l as [|a l IH]; intros l' Hl Hl' Hsame.
  - destruct l' as [|b l']; [reflexivity|].
    exfalso. apply (Hsame b). now left.
  - destruct l' as [|b l'].
    + exfalso. apply (Hsame a). now left.
    + inversion Hl as [|? ? Hsl Hal]; subst.
      inversion Hl' as [|? ? Hsl' Hal']; subst.
      rewrite Forall_forall in Hal, Hal'.
      assert (a = b).
      { destruct (proj1 (Hsame a) (or_introl eq_refl)) as [E|Ha];
          [now symmetry|].
        destruct (proj2 (Hsame b) (or_introl eq_refl)) as [E|Hb];
          [exact E|].
        exfalso. apply (slt_irrefl a).
        apply (slt_trans a b a); auto. }
      subst b. f_equal. apply IH; auto.
      intro x. split; intro Hx.
      * destruct (proj1 (Hsame x) (or_intror Hx)) as [E|H]; [|exact H].
        subst x. exfalso. exact (slt_irrefl a (Hal a Hx)).
      * destruct (proj2 (Hsame x) (or_intror Hx)) as [E|H]; [|exact H].
        subst x. exfalso. exact (slt_irrefl a (Hal' a Hx)).
Qed.

(* ------------------------------------------------------------------ *)
(** ** The registry keeps every manifest ordered *)

Lemma Forall_insert {V : Type} (P : string * V -> Prop) m k v :
  Forall P m -> P (k, v) -> Forall P (StdMap.insert k v m).
Proof.
  intros Hm Hk.
  apply (Permutation_Forall (Permutation_sym (insert_Permutation m k v))).
  now constructor.
Qed.

Lemma Forall_emplace {V : Type} (P : string * V -> Prop) m k v :
  Forall P m -> P (k, v) -> Forall P (StdMap.emplace k v m).
Proof.
  intros Hm Hk. unfold StdMap.emplace.
  destruct (StdMap.find k m); [assumption|now apply Forall_insert].
Qed.

Lemma Forall_erase {V : Type} (P : string * V -> Prop) (m : StdMap.t V) k :
  Forall P m -> Forall P (StdMap.erase k m).
Proof.
  induction m as [|[k' v'] m IH]; simpl; intro H; [constructor|].
  inversion H; subst.
  destruct (String.eqb k k'); [assumption|constructor; auto].
Qed.

Lemma Forall_assign {V : Type} (P : string * V -> Prop) (m : StdMap.t V) k v :
  Forall P m -> (forall k', P (k', v)) -> Forall P (StdMap.assign k v m).
Proof.
  intros H Hv. induction m as [|[k' v'] m IH]; simpl; [constructor|].
  inversion H; subst.
  destruct (String.eqb k k'); constructor; auto.
Qed.

Lemma registerLoop_ordered order positions filenames data n :
  forall i oldF oldD res,
    StdMap.ordered res ->
    StdMap.ordered
      (Resource.registerLoop order positions filenames data n i oldF oldD res).
Proof.
  induction n as [|n IH]; intros i oldF oldD res Hres; simpl.
  - exact Hres.
  - apply IH. now apply emplace_ordered.
Qed.

Lemma reachable_manifests_ordered order reg :
  reachable order reg -> manifests_ordered reg.
Proof.
  unfold manifests_ordered.
  induction 1 as [|group count positions filenames data reg _ IH
                  |group reg _ IH|group file reg _ IH].
  - constructor.
  - unfold Resource.registerData.
    destruct (StdMap.find group reg); [exact IH|].
    apply Forall_emplace; [exact IH|]. simpl.
    apply registerLoop_ordered. constructor.
  - unfold Resource.unregisterData.
    destruct (StdMap.find group reg); simpl; [|exact IH].
    now apply Forall_erase.
  - unfold Resource.overrideGroup.
    destruct (StdMap.find group reg) as [gd|] eqn:E; simpl; [|exact IH].
    apply Forall_assign; [exact IH|]. intros k'. simpl.
    apply find_In in E. rewrite Forall_forall in IH. exact (IH _ E).
Qed.

Lemma list_ordered order reg r names :
  reachable order reg ->
  Resource.list reg r = Returned names ->
  StronglySorted StdMap.slt names.
Proof.
  intros Hreach Hlist. unfold Resource.list in Hlist.
  destruct (Resource._group r) as [g|]; [|discriminate].
  destruct (StdMap.find g reg) as [gd|] eqn:E; [|discriminate].
  injection Hlist as <-.
  apply reachable_manifests_ordered in Hreach.
  apply find_In in E. unfold manifests_ordered in Hreach.
  rewrite Forall_forall in Hreach. exact (Hreach _ E).
Qed.

(** C10. For every group of a registry built by [registerData],
    [unregisterData] and [overrideGroup], [list()] returns the names in
    strictly increasing lexicographic order, hence without duplicates.
    The order in which the files came in the arrays does not show: any
    registered group with the same set of names lists them in the same
    order. *)
Theorem list_sorted_no_duplicates order reg r names :
  reachable order reg ->
  Resource.list reg r = Returned names ->
  StronglySorted StdMap.slt names /\
  NoDup names /\
  forall order' reg' r' names',
    reachable order' reg' ->
    Resource.list reg' r' = Returned names' ->
    (forall x, In x names' <-> In x names) ->
    names' = names.
Proof.
  intros Hreach Hlist.
  pose proof (list_ordered order reg r names Hreach Hlist) as Hsorted.
  split; [exact Hsorted|]. split.
  - now apply sorted_NoDup.
  - intros order' reg' r' names' Hreach' Hlist' Hsame.
    apply sorted_unique; [|exact Hsorted|exact Hsame].
    exact (list_ordered order' reg' r' names' Hreach' Hlist').
Qed.

(* ------------------------------------------------------------------ *)
(** ** Registration *)

(** C4. A second [registerData] for a group leaves the registry as the
    first one left it, whatever its arguments: the manifest of the group
    is the one that was there, or the one the first call decoded, and
    [list()] answers the same. [registerData] has no failure to report:
    it returns the registry. *)
Theorem registerData_first_registration_wins order group
    count positions filenames data count' positions' filenames' data' reg :
  let reg1 :=
    Resource.registerData order group count positions filenames data reg in
  let reg2 :=
    Resource.registerData order group count' positions' filenames' data' reg1 in
  reg2 = reg1 /\
  StdMap.find group reg2 =
    Some match StdMap.find group reg with
         | Some gd => gd
         | None =>
             GroupData.mk EmptyString
               (Resource.registerLoop order positions filenames data
                  (Resource.passes count) 0 0 0 StdMap.empty)
         end /\
  forall r, Resource.list reg2 r = Resource.list reg1 r.
Proof.
  intros reg1 reg2.
  assert (H1 : StdMap.find group reg1 =
               Some match StdMap.find group reg with
                    | Some gd => gd
                    | None =>
                        GroupData.mk EmptyString
                          (Resource.registerLoop order positions filenames data
                             (Resource.passes count) 0 0 0 StdMap.empty)
                    end).
  { unfold reg1, Resource.registerData.
    destruct (StdMap.find group reg) as [gd|] eqn:E; [exact E|].
    rewrite find_emplace_same, E. reflexivity. }
  assert (H2 : reg2 = reg1).
  { unfold reg2, Resource.registerData at 1. now rewrite H1. }
  rewrite H2. auto.
Qed.

Lemma passes_zero : Resource.passes 0 = 0%nat.
Proof. reflexivity. Qed.

(** C8. For a group that is not registered, constructing a [Resource],
    [unregisterData] and [overrideGroup] each end in a failed assertion
    that names the group, and the registry is as it was. (The constructor
    takes the registry and returns none: it cannot change it.) *)
Theorem unknown_group_asserts loadConfiguration group configurationFile reg :
  StdMap.find group reg = None ->
  (exists value,
     Resource.new loadConfiguration reg group =
       (AssertFailed
          ["Utility::Resource: group"; quoted group; "was not found"] value,
        [])) /\
  Resource.unregisterData group reg =
    (AssertFailed
       ["Utility::Resource: resource group"; group; "is not registered"] tt,
     reg) /\
  Resource.overrideGroup group configurationFile reg =
    (AssertFailed
       ["Utility::Resource::overrideGroup(): group"; quoted group;
        "was not found"] tt,
     reg).
Proof.
  intro Hnone.
  unfold Resource.new, Resource.unregisterData, Resource.overrideGroup.
  rewrite Hnone. repeat split. eexists. reflexivity.
Qed.

(* ------------------------------------------------------------------ *)
(** ** Lookups through a handle *)

Section HandleFacts.

Variable fileExists : string -> bool.
Variable read : string -> Array.
Variable join : string -> string -> string.
Variable path : string -> string.
Variable loadConfiguration : string -> Configuration.t.
Variable reg : registry.

Local Abbreviation getRaw := (Resource.getRaw fileExists read join path reg).
Local Abbreviation overrideLoop := (Resource.overrideLoop fileExists read join path).
Local Abbreviation loadedAt := (loaded fileExists read).
Local Abbreviation pathOf := (overridePath join path).

Lemma firstMatch_app name before file after :
  Forall (fun f => Resource.entryName f <> name) before ->
  Resource.entryName file = name ->
  firstMatch name (before ++ file :: after) = Some file.
Proof.
  intros Hbefore Hfile. unfold firstMatch.
  induction Hbefore as [|f before Hf _ IH]; simpl.
  - rewrite Hfile, String.eqb_refl. reflexivity.
  - destruct (String.eqb_spec (Resource.entryName f) name); [contradiction|].
    exact IH.
Qed.

Lemma firstMatch_name name files file :
  firstMatch name files = Some file -> Resource.entryName file = name.
Proof.
  unfold firstMatch. intro H. apply find_some in H.
  now apply String.eqb_eq.
Qed.

Lemma overrideLoop_firstMatch cf o filename files :
  overrideLoop cf o filename files =
  match firstMatch filename files with
  | None => None
  | Some file =>
      let p := join (path cf) (ConfigurationGroup.filename file) in
      if fileExists p
      then Some (mkArrayReference (a_begin (read p)) (a_size (read p)),
                 OverrideData.mk (OverrideData.conf o)
                   (StdMap.emplace filename (read p) (OverrideData.data o)),
                 [])
      else Some (nullReference, o,
                 [mkOutput ErrorOutput ["    Error: cannot open file"; p]])
  end.
Proof.
  unfold firstMatch.
  induction files as [|file files IH]; simpl; [reflexivity|].
  destruct (String.eqb (Resource.entryName file) filename); simpl.
  - unfold Resource.fileContents.
    destruct (fileExists _); reflexivity.
  - exact IH.
Qed.

Lemma getRaw_cache_miss r g gd o filename :
  Resource._group r = Some g ->
  StdMap.find g reg = Some gd ->
  Resource._overrideGroup r = Some o ->
  StdMap.find filename (OverrideData.data o) = None ->
  getRaw r filename =
  match firstMatch filename (Configuration.files (OverrideData.conf o)) with
  | Some file => loadedAt r o filename (pathOf gd file)
  | None =>
      (Resource.compiledIn g gd filename, r, [fallbackWarning filename])
  end.
Proof.
  intros Hg Hgd Ho Hmiss.
  destruct r as [rg ro]. simpl in Hg, Ho. subst rg ro.
  unfold Resource.getRaw. simpl. rewrite Hgd, Hmiss.
  rewrite overrideLoop_firstMatch.
  destruct (firstMatch _ _) as [file|]; [|reflexivity].
  unfold loaded, overridePath. cbv zeta.
  destruct (fileExists _); reflexivity.
Qed.

Lemma getRaw_cache_hit r g gd o filename a :
  Resource._group r = Some g ->
  StdMap.find g reg = Some gd ->
  Resource._overrideGroup r = Some o ->
  StdMap.find filename (OverrideData.data o) = Some a ->
  getRaw r filename =
    (Returned (mkArrayReference (a_begin a) (a_size a)), r, []).
Proof.
  intros Hg Hgd Ho Hhit.
  unfold Resource.getRaw. now rewrite Hg, Hgd, Ho, Hhit.
Qed.

Lemma getRaw_no_override r g gd filename :
  Resource._group r = Some g ->
  StdMap.find g reg = Some gd ->
  Resource._overrideGroup r = None ->
  getRaw r filename = (Resource.compiledIn g gd filename, r, []).
Proof.
  intros Hg Hgd Ho.
  unfold Resource.getRaw. now rewrite Hg, Hgd, Ho.
Qed.

Lemma new_bound group r out :
  Resource.new loadConfiguration reg group = (Returned r, out) ->
  bound fileExists read join path reg r.
Proof.
  unfold Resource.new.
  destruct (StdMap.find group reg) as [gd|] eqn:Hgd; [|discriminate].
  destruct (String.eqb_spec (GroupData.overrideGroup gd) "") as [He|Hne];
    intro H; injection H as <- _; exists group, gd; simpl;
    repeat split; auto.
  intros name a Hfind. discriminate.
Qed.

Lemma getRaw_bound r filename result r' out :
  bound fileExists read join path reg r ->
  getRaw r filename = (result, r', out) ->
  bound fileExists read join path reg r'.
Proof.
  intros (g & gd & Hg & Hgd & Ho) Hget.
  destruct (Resource._overrideGroup r) as [o|] eqn:Hor.
  - destruct (StdMap.find filename (OverrideData.data o)) as [a|] eqn:Hc.
    + rewrite (getRaw_cache_hit r g gd o filename a) in Hget by assumption.
      injection Hget as _ <- _. exists g, gd. now rewrite Hor.
    + rewrite (getRaw_cache_miss r g gd o filename) in Hget by assumption.
      destruct (firstMatch _ _) as [file|] eqn:Hm.
      * unfold loaded in Hget.
        destruct (fileExists (pathOf gd file)) eqn:Hex;
          injection Hget as _ <- _.
        -- exists g, gd. simpl. repeat split; auto.
           intros name a. simpl.
           destruct (String.eqb_spec name filename) as [->|Hne].
           ++ rewrite find_emplace_same, Hc. intro H. injection H as <-.
              exists file. auto.
           ++ rewrite find_emplace_other by assumption. apply Ho.
        -- exists g, gd. now rewrite Hor.
      * injection Hget as _ <- _. exists g, gd. now rewrite Hor.
  - rewrite (getRaw_no_override r g gd filename) in Hget by assumption.
    injection Hget as _ <- _. exists g, gd. now rewrite Hor.
Qed.

Lemma handle_bound r :
  handle fileExists read join path loadConfiguration reg r ->
  bound fileExists read join path reg r.
Proof.
  induction 1 as [group r out Hnew|r filename result r' out _ IH Hget].
  - exact (new_bound group r out Hnew).
  - exact (getRaw_bound r filename result r' out IH Hget).
Qed.

End HandleFacts.

Section HandleClaims.

Variable fileExists : string -> bool.
Variable read : string -> Array.
Variable join : string -> string -> string.
Variable path : string -> string.
Variable loadConfiguration : string -> Configuration.t.
Variable reg : registry.

Local Abbreviation getRaw := (Resource.getRaw fileExists read join path reg).
Local Abbreviation get := (Resource.get fileExists read join path reg).
Local Abbreviation loadedAt := (loaded fileExists read).
Local Abbreviation pathOf := (overridePath join path).
Local Abbreviation handleOn :=
  (handle fileExists read join path loadConfiguration reg).

(** C7. On a cache miss [getRaw] takes the first entry of the override
    manifest, in declaration order, whose alias -- or filename, when it
    declares no alias -- is the requested name, and answers from the file
    of that entry: the entries after it, matching or not, do not enter
    the result. *)
Theorem getRaw_first_declared_match_wins r g gd o filename before file after :
  Resource._group r = Some g ->
  StdMap.find g reg = Some gd ->
  Resource._overrideGroup r = Some o ->
  StdMap.find filename (OverrideData.data o) = None ->
  Configuration.files (OverrideData.conf o) = before ++ file :: after ->
  Forall (fun f =>
            match ConfigurationGroup.alias f with
            | Some a => a
            | None => ConfigurationGroup.filename f
            end <> filename) before ->
  match ConfigurationGroup.alias file with
  | Some a => a
  | None => ConfigurationGroup.filename file
  end = filename ->
  getRaw r filename = loadedAt r o filename (pathOf gd file).
Proof.
  intros Hg Hgd Ho Hmiss Hfiles Hbefore Hfile.
  rewrite (getRaw_cache_miss _ _ _ _ _ r g gd o filename) by assumption.
  rewrite Hfiles, (firstMatch_app filename before file after) by assumption.
  reflexivity.
Qed.

(** C3. When the override is active and the entry found for the name
    names a file that cannot be loaded, [getRaw] returns the null view
    with the error of [fileContents] as its only output; the handle, and
    so its cache, is as before; the compiled-in manifest is not
    consulted. A name the manifest does not declare is told apart by the
    output: there [getRaw] prints the fallback warning. *)
Theorem getRaw_load_failure_propagates r g gd o filename file :
  Resource._group r = Some g ->
  StdMap.find g reg = Some gd ->
  Resource._overrideGroup r = Some o ->
  StdMap.find filename (OverrideData.data o) = None ->
  firstMatch filename (Configuration.files (OverrideData.conf o)) = Some file ->
  fileExists (pathOf gd file) = false ->
  getRaw r filename =
    (Returned nullReference, r,
     [mkOutput ErrorOutput ["    Error: cannot open file"; pathOf gd file]]) /\
  forall other,
    StdMap.find other (OverrideData.data o) = None ->
    firstMatch other (Configuration.files (OverrideData.conf o)) = None ->
    getRaw r other =
      (Resource.compiledIn g gd other, r, [fallbackWarning other]) /\
    snd (getRaw r other) <> snd (getRaw r filename).
Proof.
  intros Hg Hgd Ho Hmiss Hmatch Hex.
  assert (Hfail : getRaw r filename =
            (Returned nullReference, r,
             [mkOutput ErrorOutput
                ["    Error: cannot open file"; pathOf gd file]])).
  { rewrite (getRaw_cache_miss _ _ _ _ _ r g gd o filename) by assumption.
    rewrite Hmatch. unfold loaded. now rewrite Hex. }
  split; [exact Hfail|].
  intros other Hmiss' Hnone.
  assert (Hother : getRaw r other =
            (Resource.compiledIn g gd other, r, [fallbackWarning other])).
  { rewrite (getRaw_cache_miss _ _ _ _ _ r g gd o other) by assumption.
    now rewrite Hnone. }
  split; [exact Hother|].
  rewrite Hother, Hfail. simpl. unfold fallbackWarning. discriminate.
Qed.

(** C6. Through a handle, for a name that the override manifest does not
    declare (or without an override) and that the manifest of the group
    does not hold, [getRaw] ends in the failed assertion whose message
    carries the filename and the group; the value that stands for its
    result is the null view. *)
Theorem getRaw_not_found_asserts r g gd filename :
  handleOn r ->
  Resource._group r = Some g ->
  StdMap.find g reg = Some gd ->
  match Resource._overrideGroup r with
  | Some o =>
      firstMatch filename (Configuration.files (OverrideData.conf o)) = None
  | None => True
  end ->
  StdMap.find filename (GroupData.resources gd) = None ->
  getRaw r filename =
    (AssertFailed
       ["Utility::Resource::get(): file"; quoted filename;
        "was not found in group"; quoted g]
       nullReference,
     r,
     match Resource._overrideGroup r with
     | Some _ => [fallbackWarning filename]
     | None => []
     end) /\
  nonNull nullReference = false.
Proof.
  intros Hh Hg Hgd Hundeclared Habsent. split; [|reflexivity].
  apply handle_bound in Hh. destruct Hh as (g' & gd' & Hg' & Hgd' & Hc).
  assert (g' = g) by congruence. subst g'.
  assert (gd' = gd) by congruence. subst gd'.
  destruct (Resource._overrideGroup r) as [o|] eqn:Ho.
  - assert (Hmiss : StdMap.find filename (OverrideData.data o) = None).
    { destruct (StdMap.find filename (OverrideData.data o)) as [a|] eqn:E;
        [|reflexivity].
      destruct (Hc _ _ E) as (file & Hm & _). congruence. }
    rewrite (getRaw_cache_miss _ _ _ _ _ r g gd o filename) by assumption.
    rewrite Hundeclared. unfold Resource.compiledIn. now rewrite Habsent.
  - rewrite (getRaw_no_override _ _ _ _ _ r g gd filename) by assumption.
    unfold Resource.compiledIn. now rewrite Habsent.
Qed.

(** C2. Through a handle with an active override: a name whose first
    entry in the override manifest names a readable file is answered with
    the bytes of that file, whatever the compiled-in manifest holds for
    it; a name the override manifest does not declare is answered from
    the compiled-in manifest; a name whose entry names an unreadable file
    gets the null view and the error, not the compiled-in data. *)
Theorem override_shadows_compiled_in r g gd o :
  handleOn r ->
  Resource._group r = Some g ->
  StdMap.find g reg = Some gd ->
  Resource._overrideGroup r = Some o ->
  (forall a file,
     firstMatch a (Configuration.files (OverrideData.conf o)) = Some file ->
     fileExists (pathOf gd file) = true ->
     exists r' out,
       getRaw r a =
         (Returned (mkArrayReference (a_begin (read (pathOf gd file)))
                      (a_size (read (pathOf gd file)))),
          r', out)) /\
  (forall b v,
     firstMatch b (Configuration.files (OverrideData.conf o)) = None ->
     StdMap.find b (GroupData.resources gd) = Some v ->
     getRaw r b = (Returned v, r, [fallbackWarning b])) /\
  (forall c file,
     firstMatch c (Configuration.files (OverrideData.conf o)) = Some file ->
     fileExists (pathOf gd file) = false ->
     getRaw r c =
       (Returned nullReference, r,
        [mkOutput ErrorOutput
           ["    Error: cannot open file"; pathOf gd file]])).
Proof.
  intros Hh Hg Hgd Ho.
  apply handle_bound in Hh. destruct Hh as (g' & gd' & Hg' & Hgd' & Hc).
  assert (g' = g) by congruence. subst g'.
  assert (gd' = gd) by congruence. subst gd'.
  rewrite Ho in Hc.
  split; [|split].
  - intros a file Hm Hex.
    destruct (StdMap.find a (OverrideData.data o)) as [arr|] eqn:E.
    + destruct (Hc _ _ E) as (file' & Hm' & _ & ->).
      assert (file' = file) by congruence. subst file'.
      rewrite (getRaw_cache_hit _ _ _ _ _ r g gd o a _ Hg Hgd Ho E).
      eauto.
    + rewrite (getRaw_cache_miss _ _ _ _ _ r g gd o a) by assumption.
      rewrite Hm. unfold loaded. fold pathOf. rewrite Hex. eauto.
  - intros b v Hnone Hv.
    assert (Hmiss : StdMap.find b (OverrideData.data o) = None).
    { destruct (StdMap.find b (OverrideData.data o)) as [arr|] eqn:E;
        [|reflexivity].
      destruct (Hc _ _ E) as (file & Hm & _). congruence. }
    rewrite (getRaw_cache_miss _ _ _ _ _ r g gd o b) by assumption.
    rewrite Hnone. unfold Resource.compiledIn. now rewrite Hv.
  - intros c file Hm Hex.
    assert (Hmiss : StdMap.find c (OverrideData.data o) = None).
    { destruct (StdMap.find c (OverrideData.data o)) as [arr|] eqn:E;
        [|reflexivity].
      destruct (Hc _ _ E) as (file' & Hm' & Hex' & _).
      assert (file' = file) by congruence. subst file'.
      unfold overridePath in Hex. congruence. }
    rewrite (getRaw_cache_miss _ _ _ _ _ r g gd o c) by assumption.
    rewrite Hm. unfold loaded. now rewrite Hex.
Qed.

End HandleClaims.

(* ------------------------------------------------------------------ *)
(** ** The text accessor *)

Lemma length_take n s : String.length (take n s) = n.
Proof.
  revert s. induction n as [|n IH]; intro s; simpl; [reflexivity|].
  destruct s; simpl; now rewrite IH.
Qed.

Lemma length_load p n : String.length (load p n) = n.
Proof. destruct p; apply length_take. Qed.

Lemma length_zero_iff (s : string) : String.length s = 0%nat <-> s = EmptyString.
Proof. destruct s; simpl; split; congruence. Qed.

(** C9, as the code has it. [get] passes the result of [getRaw] on, the
    view turned into a string: the bytes of a non-null view, the empty
    string for the null view. The empty string is the answer exactly when
    the view is null or has length zero -- a file without content gives
    it as well. *)
Theorem get_text_of_view fileExists read join path reg r filename :
  let raw := Resource.getRaw fileExists read join path reg r filename in
  let text := fun v => if nonNull v then bytes v else EmptyString in
  Resource.get fileExists read join path reg r filename =
    (outcome_map text (fst (fst raw)), snd (fst raw), snd raw) /\
  forall v,
    (text v = bytes v \/ nonNull v = false) /\
    (text v = EmptyString <-> nonNull v = false \/ ar_size v = 0%nat).
Proof.
  intros raw text. split.
  - unfold Resource.get. fold raw. destruct raw as [[result r'] out].
    reflexivity.
  - intro v. unfold text, bytes. destruct (nonNull v) eqn:E.
    + split; [now left|].
      rewrite <- length_zero_iff, length_load.
      split; [now right|]. intros [H|H]; [discriminate|exact H].
    + split; [now right|]. split; auto.
Qed.

(** C9, the reading the code does not bear: [get] returns the empty
    string for [readme.txt] of the example, whose view is not null. *)
Lemma get_empty_for_non_null_view :
  exists v,
    Resource.getRaw Example.fileExists Example.read Example.join Example.path
      Example.assets Example.assetsHandle "readme.txt"
      = (Returned v, Example.assetsHandle, []) /\
    nonNull v = true /\
    Resource.get Example.fileExists Example.read Example.join Example.path
      Example.assets Example.assetsHandle "readme.txt"
      = (Returned EmptyString, Example.assetsHandle, []) /\
    ~ (EmptyString = EmptyString <-> nonNull v = false).
Proof.
  exists (mkArrayReference (Ptr "void main(){}" 13) 0).
  split; [reflexivity|]. split; [reflexivity|]. split; [reflexivity|].
  simpl. intros [H _]. specialize (H eq_refl). discriminate.
Qed.

(* ------------------------------------------------------------------ *)
(** ** Round trip through [compile] and [registerData] *)

(** ** Strings *)

Lemma append_assoc (a b c : string) : ((a ++ b) ++ c = a ++ (b ++ c))%string.
Proof. induction a as [|x a IH]; simpl; [reflexivity|now rewrite IH]. Qed.

Lemma append_nil_r (a : string) : (a ++ "")%string = a.
Proof. induction a as [|x a IH]; simpl; [reflexivity|now rewrite IH]. Qed.

Lemma length_append (a b : string) :
  String.length (a ++ b) = (String.length a + String.length b)%nat.
Proof. induction a as [|x a IH]; simpl; [reflexivity|now rewrite IH]. Qed.

Lemma drop_append (pre s : string) : drop (String.length pre) (pre ++ s) = s.
Proof. induction pre as [|x pre IH]; simpl; [reflexivity|exact IH]. Qed.

Lemma take_append (x post : string) : take (String.length x) (x ++ post) = x.
Proof. induction x as [|c x IH]; simpl; [reflexivity|now rewrite IH]. Qed.

Lemma load_at (pre x post : string) :
  load (Ptr (pre ++ x ++ post) (String.length pre)) (String.length x) = x.
Proof. simpl. now rewrite drop_append, take_append. Qed.

Lemma load_at_offset (pre x post : string) (off len : nat) :
  off = String.length pre -> len = String.length x ->
  load (ptr_add (Ptr (pre ++ x ++ post) 0) off) len = x.
Proof. intros -> ->. simpl ptr_add. apply load_at. Qed.

(** ** The object representation of [unsigned int] *)

Lemma le_value_le_bytes k n :
  (0 <= n < 256 ^ Z.of_nat k)%Z -> le_value (le_bytes k n) = n.
Proof.
  revert n. induction k as [|k IH]; intros n Hn.
  - simpl in *. lia.
  - cbn [le_bytes le_value].
    rewrite N_ascii_embedding.
    + rewrite IH.
      * rewrite Z2N.id by (apply Z.mod_pos_bound; lia).
        rewrite (Z.div_mod n 256) at 3 by lia. lia.
      * rewrite Nat2Z.inj_succ, Z.pow_succ_r in Hn by lia.
        split; [apply Z.div_pos; lia|].
        apply Z.div_lt_upper_bound; lia.
    + assert (0 <= n mod 256 < 256)%Z by (apply Z.mod_pos_bound; lia). lia.
Qed.

Lemma length_le_bytes k n : String.length (le_bytes k n) = k.
Proof.
  revert n. induction k as [|k IH]; intro n; simpl; [reflexivity|].
  now rewrite IH.
Qed.

Lemma length_string_of_list_ascii l :
  String.length (string_of_list_ascii l) = List.length l.
Proof. induction l as [|c l IH]; simpl; [reflexivity|now rewrite IH]. Qed.

Lemma length_list_ascii_of_string s :
  List.length (list_ascii_of_string s) = String.length s.
Proof. induction s as [|c s IH]; simpl; [reflexivity|now rewrite IH]. Qed.

Lemma length_reverse s : String.length (reverse s) = String.length s.
Proof.
  unfold reverse.
  now rewrite length_string_of_list_ascii, length_rev,
    length_list_ascii_of_string.
Qed.

Lemma reverse_involutive s : reverse (reverse s) = s.
Proof.
  unfold reverse.
  now rewrite list_ascii_of_string_of_list_ascii, rev_involutive,
    string_of_list_ascii_of_string.
Qed.

Lemma length_numberToString order n :
  String.length (Resource.numberToString order n) = 4%nat.
Proof.
  unfold Resource.numberToString. destruct order.
  - apply length_le_bytes.
  - rewrite length_reverse. apply length_le_bytes.
Qed.

Lemma readUnsigned_numberToString order pre post n off :
  (0 <= n < 2 ^ 32)%Z ->
  off = String.length pre ->
  Resource.readUnsigned order
    (ptr_add (Ptr (pre ++ Resource.numberToString order n ++ post) 0) off) = n.
Proof.
  intros Hn ->. unfold Resource.readUnsigned.
  change (Z.to_nat size) with 4%nat.
  rewrite <- (length_numberToString order n).
  simpl ptr_add. rewrite load_at.
  unfold Resource.numberToString. destruct order.
  - now apply le_value_le_bytes.
  - rewrite reverse_involutive. now apply le_value_le_bytes.
Qed.

(** ** Decoding *)

Lemma wrap_small z : (0 <= z < 2 ^ 32)%Z -> wrap z = z.
Proof. intro H. unfold wrap. now apply Z.mod_small. Qed.

Lemma registerLoop_views order P N data :
  forall rest Ppre Npre doff i oldF oldD res,
    P = (Ppre ++ positionsOf order oldF oldD rest)%string ->
    N = (Npre ++ namesOf rest)%string ->
    i = Z.of_nat (String.length Ppre) ->
    oldF = Z.of_nat (String.length Npre) ->
    oldD = Z.of_nat doff ->
    (i + 8 * Z.of_nat (List.length rest) < 2 ^ 32)%Z ->
    (oldF + Z.of_nat (String.length (namesOf rest)) < 2 ^ 32)%Z ->
    (oldD + Z.of_nat (String.length (contentsOf rest)) < 2 ^ 32)%Z ->
    Resource.registerLoop order (Ptr P 0) (Ptr N 0) data (List.length rest)
      i oldF oldD res
    = viewsOf data doff rest res.
Proof.
  induction rest as [|[name content] rest IH];
    intros Ppre Npre doff i oldF oldD res HP HN Hi HF HD Bi BF BD.
  - reflexivity.
  - cbn [List.length Resource.registerLoop viewsOf].
    cbn [positionsOf namesOf contentsOf List.length] in HP, HN, Bi, BF, BD.
    rewrite length_append in BF, BD.
    rewrite (wrap_small (oldF + _)) in HP by lia.
    rewrite (wrap_small (oldD + _)) in HP by lia.
    set (fp := (oldF + Z.of_nat (String.length name))%Z) in *.
    set (dp := (oldD + Z.of_nat (String.length content))%Z) in *.
    assert (Hfp : Resource.readUnsigned order
                    (ptr_add (Ptr P 0) (Z.to_nat i)) = fp).
    { rewrite HP. apply readUnsigned_numberToString; lia. }
    assert (Hdp : Resource.readUnsigned order
                    (ptr_add (Ptr P 0) (Z.to_nat (i + size))) = dp).
    { rewrite HP, <- append_assoc.
      apply readUnsigned_numberToString; [lia|].
      rewrite length_append, length_numberToString. unfold size. lia. }
    rewrite Hfp, Hdp.
    replace (wrap (fp - oldF)) with (Z.of_nat (String.length name))
      by (rewrite wrap_small; lia).
    replace (wrap (dp - oldD)) with (Z.of_nat (String.length content))
      by (rewrite wrap_small; lia).
    rewrite !Nat2Z.id.
    assert (Hname : load (ptr_add (Ptr N 0) (Z.to_nat oldF))
                      (String.length name) = name).
    { rewrite HN. apply load_at_offset; [lia|reflexivity]. }
    rewrite Hname.
    replace (Z.to_nat oldD) with doff by lia.
    apply (IH (Ppre ++ Resource.numberToString order fp
                 ++ Resource.numberToString order dp)%string
              (Npre ++ name)%string).
    + rewrite HP, !append_assoc. reflexivity.
    + rewrite HN, append_assoc. reflexivity.
    + rewrite !length_append, !length_numberToString.
      rewrite wrap_small; unfold size; lia.
    + rewrite length_append. lia.
    + lia.
    + rewrite wrap_small; unfold size; lia.
    + lia.
    + lia.
Qed.

(** ** The manifest of a file list *)

Lemma find_map_values {V W : Type} (f : V -> W) (m : StdMap.t V) k :
  StdMap.find k (map (fun e => (fst e, f (snd e))) m)
  = option_map f (StdMap.find k m).
Proof.
  induction m as [|[k' v'] m IH]; simpl; [reflexivity|].
  destruct (String.eqb k k'); [reflexivity|exact IH].
Qed.

Lemma insert_map_values {V W : Type} (f : V -> W) (m : StdMap.t V) k v :
  map (fun e => (fst e, f (snd e))) (StdMap.insert k v m)
  = StdMap.insert k (f v) (map (fun e => (fst e, f (snd e))) m).
Proof.
  induction m as [|[k' v'] m IH]; simpl; [reflexivity|].
  destruct (String.ltb k k'); simpl; [reflexivity|now rewrite IH].
Qed.

Lemma entries_emplace m k v :
  entries (StdMap.emplace k v m) = StdMap.emplace k (bytes v) (entries m).
Proof.
  unfold entries, StdMap.emplace. rewrite find_map_values.
  destruct (StdMap.find k m); simpl; [reflexivity|].
  apply insert_map_values.
Qed.

Lemma entries_viewsOf D :
  forall rest Dpre doff res,
    D = (Dpre ++ contentsOf rest)%string ->
    doff = String.length Dpre ->
    entries (viewsOf (Ptr D 0) doff rest res)
    = fold_left (fun m f => StdMap.emplace (fst f) (snd f) m) rest
        (entries res).
Proof.
  induction rest as [|[name content] rest IH]; intros Dpre doff res HD Hoff;
    cbn [viewsOf fold_left fst snd]; [reflexivity|].
  cbn [contentsOf] in HD.
  assert (Hbytes : bytes (mkArrayReference (ptr_add (Ptr D 0) doff)
                            (String.length content)) = content).
  { unfold bytes. cbn [ar_data ar_size].
    rewrite HD. now apply load_at_offset. }
  rewrite (IH (Dpre ++ content)%string).
  - now rewrite entries_emplace, Hbytes.
  - now rewrite HD, append_assoc.
  - rewrite length_append. lia.
Qed.

Lemma append_empty (a b : string) :
  (a ++ b)%string = EmptyString -> a = EmptyString /\ b = EmptyString.
Proof. destruct a; simpl; [auto|discriminate]. Qed.

Lemma entries_viewsOf_null :
  forall rest doff res,
    contentsOf rest = EmptyString ->
    entries (viewsOf nullptr doff rest res)
    = fold_left (fun m f => StdMap.emplace (fst f) (snd f) m) rest
        (entries res).
Proof.
  induction rest as [|[name content] rest IH]; intros doff res Hempty;
    simpl; [reflexivity|].
  simpl in Hempty. apply append_empty in Hempty. destruct Hempty as [-> Hrest].
  rewrite IH by assumption. now rewrite entries_emplace.
Qed.

Lemma fold_emplace_ordered {V : Type} (files : list (string * V)) :
  forall m,
    StdMap.ordered m ->
    StdMap.ordered
      (fold_left (fun m f => StdMap.emplace (fst f) (snd f) m) files m).
Proof.
  induction files as [|f files IH]; intros m Hm; simpl; [exact Hm|].
  apply IH. now apply emplace_ordered.
Qed.

Lemma fold_emplace_Permutation {V : Type} (files : list (string * V)) :
  forall m,
    NoDup (StdMap.keys m ++ map fst files) ->
    Permutation
      (fold_left (fun m f => StdMap.emplace (fst f) (snd f) m) files m)
      (m ++ files).
Proof.
  induction files as [|[k v] files IH]; intros m Hnd; simpl.
  - now rewrite app_nil_r.
  - simpl in Hnd.
    assert (Hfresh : StdMap.find k m = None).
    { apply find_None_keys. intro Hin.
      apply NoDup_remove_2 in Hnd. apply Hnd. apply in_or_app. now left. }
    unfold StdMap.emplace at 2. rewrite Hfresh.
    rewrite IH.
    + rewrite (insert_Permutation m k v). simpl.
      rewrite <- Permutation_middle. reflexivity.
    + eapply Permutation_NoDup; [|exact Hnd].
      unfold StdMap.keys.
      rewrite (Permutation_map fst (insert_Permutation m k v)). simpl.
      symmetry. apply Permutation_middle.
Qed.

Lemma In_find {V : Type} (m : StdMap.t V) k v :
  NoDup (StdMap.keys m) -> In (k, v) m -> StdMap.find k m = Some v.
Proof.
  induction m as [|[k' v'] m IH]; simpl; intros Hnd Hin; [contradiction|].
  inversion Hnd as [|? ? Hn Hd]; subst.
  destruct Hin as [E|Hin].
  - injection E as -> ->. now rewrite String.eqb_refl.
  - destruct (String.eqb_spec k k') as [->|Hne]; [|auto].
    exfalso. apply Hn. change k' with (fst (k', v)). now apply in_map.
Qed.

(** ** Reading the array texts *)

Lemma option_map_id (x : option string) :
  option_map (String.append EmptyString) x = x.
Proof. destruct x; reflexivity. Qed.

Lemma option_map_append (a b : string) (x : option string) :
  option_map (String.append a) (option_map (String.append b) x)
  = option_map (String.append (a ++ b)) x.
Proof. destruct x; simpl; [now rewrite append_assoc|reflexivity]. Qed.

Lemma denotes_nil : denotes EmptyString EmptyString.
Proof. intro rest. simpl. now rewrite option_map_id. Qed.

Lemma denotes_app X Y a b :
  denotes X a -> denotes Y b -> denotes (X ++ Y) (a ++ b).
Proof.
  intros HX HY rest.
  now rewrite append_assoc, HX, HY, option_map_append.
Qed.

Lemma denotes_newline : denotes nl EmptyString.
Proof. intro rest. simpl. now rewrite option_map_id. Qed.

Lemma denotes_indent : denotes (nl ++ "    ") EmptyString.
Proof. intro rest. simpl. now rewrite option_map_id. Qed.

Lemma denotes_hexbyte c : denotes (hexbyte c) (String c EmptyString).
Proof.
  intro rest.
  destruct c as [[] [] [] [] [] [] [] []];
    cbv -[initializer option_map String.append];
    cbn [initializer]; cbv -[initializer option_map String.append];
    reflexivity.
Qed.

Lemma denotes_hexrows data : forall col, denotes (hexrows col data) data.
Proof.
  induction data as [|c data IH]; intro col; cbn [hexrows].
  - exact denotes_nil.
  - change (String c data) with (EmptyString ++ String c EmptyString ++ data)%string.
    apply denotes_app; [|apply denotes_app; [apply denotes_hexbyte|apply IH]].
    destruct (Nat.eqb col 0); [exact denotes_indent|exact denotes_nil].
Qed.

Lemma denotes_hexcode data : denotes (hexcode data) data.
Proof. apply denotes_hexrows. Qed.

Lemma closesComment_tail c name :
  closesComment (String c name) = false ->
  closesComment name = false /\
  (Ascii.eqb c "*" = true -> forall name', name <> String "/" name').
Proof.
  cbn [closesComment]. destruct name as [|c' name]; [split; [reflexivity|]|].
  - intros _ name'. discriminate.
  - intro H. apply orb_false_elim in H. destruct H as [H1 H2].
    split; [exact H2|]. intros Hstar name' E. injection E as -> _.
    rewrite Hstar in H1. discriminate.
Qed.

Lemma comment_body name :
  forall star rest,
    closesComment name = false ->
    allChars ordinary name = true ->
    (star = true -> forall name', name <> String "/" name') ->
    initializer (inComment star) (name ++ " */" ++ rest)
    = initializer Elem rest.
Proof.
  induction name as [|c name IH]; intros star rest Hsafe Hord Hstar.
  - destruct star; reflexivity.
  - apply closesComment_tail in Hsafe. destruct Hsafe as [Hsafe Hnext].
    cbn [allChars] in Hord. apply andb_prop in Hord.
    destruct Hord as [Hc Hord].
    assert (Hstep : lexStep (inComment star) c
                    = Some (inComment (Ascii.eqb c "*"), None)).
    { unfold lexStep. rewrite Hc. cbn [negb].
      destruct star; cbn [inComment].
      - destruct (Ascii.eqb_spec c "/") as [->|_].
        + exfalso. exact (Hstar eq_refl name eq_refl).
        + destruct (Ascii.eqb c "*"); reflexivity.
      - destruct (Ascii.eqb c "*"); reflexivity. }
    change (String c name ++ " */" ++ rest)%string
      with (String c (name ++ " */" ++ rest)).
    cbn [initializer]. rewrite Hstep.
    apply IH; assumption.
Qed.

Lemma commentSafe_spec name :
  commentSafe name = true ->
  closesComment name = false /\ allChars ordinary name = true.
Proof.
  unfold commentSafe. intro H. apply andb_prop in H. destruct H as [H1 H2].
  split; [now destruct (closesComment name)|exact H2].
Qed.

Lemma denotes_comment name :
  commentSafe name = true -> denotes (comment name) EmptyString.
Proof.
  intros Hsafe rest. apply commentSafe_spec in Hsafe.
  destruct Hsafe as [Hsafe Hord]. rewrite option_map_id.
  unfold comment. rewrite !append_assoc.
  change (initializer (inComment false) (name ++ " */" ++ rest)
          = initializer Elem rest).
  apply comment_body; [assumption|assumption|discriminate].
Qed.

(** The text with its last comma removed defines the same array. *)
Lemma initializer_trailing_comma t :
  forall st bs,
    initializer st (t ++ ",") = Some bs -> initializer st t = Some bs.
Proof.
  induction t as [|c t IH]; intros st bs.
  - destruct st; cbn; try discriminate; try (intro H; exact H).
    destruct (literal v); cbn; [intro H; exact H|discriminate].
  - cbn [String.append initializer].
    destruct (lexStep st c) as [[st' [b|]]|]; [| |discriminate].
    + destruct (initializer st' (t ++ ",")) as [bs'|] eqn:E; [|discriminate].
      rewrite (IH _ _ E). intro H. exact H.
    + apply IH.
Qed.

Lemma removeLast_comma t : removeLast (t ++ ",") = t.
Proof.
  induction t as [|c t IH]; [reflexivity|].
  cbn [String.append removeLast]. rewrite IH.
  destruct t; reflexivity.
Qed.

Lemma endsComma_app X Y : endsComma Y -> endsComma (X ++ Y).
Proof. intros [t ->]. exists (X ++ t)%string. now rewrite append_assoc. Qed.

Lemma endsComma_hexrows data :
  forall col, data <> EmptyString -> endsComma (hexrows col data).
Proof.
  induction data as [|c data IH]; intros col Hne; [contradiction|].
  cbn [hexrows]. apply endsComma_app.
  destruct data as [|c' data].
  - cbn [hexrows]. rewrite append_nil_r.
    eexists (String "0" (String "x" (String _ (String _ EmptyString)))).
    reflexivity.
  - apply endsComma_app. apply IH. discriminate.
Qed.

Lemma initializer_denotes X bs :
  denotes X bs -> initializer Elem X = Some bs.
Proof.
  intro H. specialize (H EmptyString).
  rewrite append_nil_r in H. rewrite H. simpl. now rewrite append_nil_r.
Qed.

Lemma initializer_removeLast X bs :
  denotes X bs -> endsComma X -> initializer Elem (removeLast X) = Some bs.
Proof.
  intros HX [t ->]. rewrite removeLast_comma.
  apply initializer_trailing_comma. now apply initializer_denotes.
Qed.

(** ** The loop of [compile] *)

Lemma compileLoop_denotes order files :
  forall first acc pb nb db,
    denotes (c_positions acc) pb ->
    denotes (c_filenames acc) nb ->
    denotes (c_data acc) db ->
    Forall (fun f => commentSafe (fst f) = true) files ->
    let a := Resource.compileLoop order first files acc in
    denotes (c_positions a)
      (pb ++ positionsOf order (c_filenamesLen acc) (c_dataLen acc) files) /\
    denotes (c_filenames a) (nb ++ namesOf files) /\
    denotes (c_data a) (db ++ contentsOf files).
Proof.
  induction files as [|[name content] files IH];
    intros first acc pb nb db Hp Hn Hd Hsafe.
  - cbn. now rewrite !append_nil_r.
  - inversion Hsafe as [|? ? Hname Hrest]; subst. cbn [fst] in Hname.
    cbn [Resource.compileLoop positionsOf namesOf contentsOf].
    set (fl := wrap (c_filenamesLen acc + Z.of_nat (String.length name))).
    set (dl := wrap (c_dataLen acc + Z.of_nat (String.length content))).
    assert (Hsep : denotes (if first then EmptyString else nl) EmptyString).
    { destruct first; [exact denotes_nil|exact denotes_newline]. }
    specialize (IH false
      (mkArrays
         (c_positions acc ++ hexcode (Resource.numberToString order fl)
            ++ hexcode (Resource.numberToString order dl))
         (c_filenames acc ++ (if first then EmptyString else nl)
            ++ comment name ++ hexcode name)
         (c_data acc ++ (if first then EmptyString else nl)
            ++ comment name ++ hexcode content)
         fl dl)
      (pb ++ Resource.numberToString order fl
          ++ Resource.numberToString order dl)%string
      (nb ++ name)%string (db ++ content)%string).
    cbn [c_positions c_filenames c_data c_filenamesLen c_dataLen] in IH.
    rewrite !append_assoc in IH. apply IH; [| | |exact Hrest].
    + apply denotes_app; [exact Hp|].
      apply denotes_app; apply denotes_hexcode.
    + apply denotes_app; [exact Hn|].
      apply (denotes_app _ _ EmptyString name); [exact Hsep|].
      apply (denotes_app _ _ EmptyString name);
        [now apply denotes_comment|apply denotes_hexcode].
    + apply denotes_app; [exact Hd|].
      apply (denotes_app _ _ EmptyString content); [exact Hsep|].
      apply (denotes_app _ _ EmptyString content);
        [now apply denotes_comment|apply denotes_hexcode].
Qed.

Lemma compileLoop_totals order files :
  forall first acc,
    (0 <= c_filenamesLen acc)%Z -> (0 <= c_dataLen acc)%Z ->
    (c_filenamesLen acc + Z.of_nat (String.length (namesOf files)) < 2 ^ 32)%Z ->
    (c_dataLen acc + Z.of_nat (String.length (contentsOf files)) < 2 ^ 32)%Z ->
    let a := Resource.compileLoop order first files acc in
    c_filenamesLen a
      = (c_filenamesLen acc + Z.of_nat (String.length (namesOf files)))%Z /\
    c_dataLen a
      = (c_dataLen acc + Z.of_nat (String.length (contentsOf files)))%Z.
Proof.
  induction files as [|[name content] files IH]; intros first acc HF HD BF BD.
  - cbn. lia.
  - cbn [Resource.compileLoop namesOf contentsOf] in *.
    rewrite length_append in BF, BD |- *.
    rewrite length_append.
    rewrite (wrap_small (c_filenamesLen acc + _)) by lia.
    rewrite (wrap_small (c_dataLen acc + _)) by lia.
    match goal with
    | |- context [Resource.compileLoop _ _ _ ?acc'] =>
        specialize (IH false acc')
    end.
    cbn [c_filenamesLen c_dataLen] in IH.
    cbv zeta in IH |- *.
    destruct IH as [IH1 IH2]; try lia.
Qed.

Lemma numberToString_nonempty order n :
  Resource.numberToString order n <> EmptyString.
Proof.
  intro E. pose proof (length_numberToString order n) as H.
  rewrite E in H. discriminate.
Qed.

Lemma compileLoop_cons order first name content files acc :
  Resource.compileLoop order first ((name, content) :: files) acc
  = Resource.compileLoop order false files
      (mkArrays
         (c_positions acc
            ++ hexcode (Resource.numberToString order
                 (wrap (c_filenamesLen acc + Z.of_nat (String.length name))))
            ++ hexcode (Resource.numberToString order
                 (wrap (c_dataLen acc + Z.of_nat (String.length content)))))
         (c_filenames acc ++ (if first then EmptyString else nl)
            ++ comment name ++ hexcode name)
         (c_data acc ++ (if first then EmptyString else nl)
            ++ comment name ++ hexcode content)
         (wrap (c_filenamesLen acc + Z.of_nat (String.length name)))
         (wrap (c_dataLen acc + Z.of_nat (String.length content)))).
Proof. reflexivity. Qed.

Lemma compileLoop_ends order files :
  forall first acc,
    files <> [] ->
    let a := Resource.compileLoop order first files acc in
    endsComma (c_positions a) /\
    (fst (last files ("", "")) <> EmptyString -> endsComma (c_filenames a)) /\
    (snd (last files ("", "")) <> EmptyString -> endsComma (c_data a)).
Proof.
  induction files as [|[name content] files IH]; intros first acc Hne;
    [contradiction|].
  destruct files as [|f files].
  - rewrite compileLoop_cons.
    cbn [Resource.compileLoop last fst snd c_positions c_filenames c_data].
    split; [|split].
    + do 2 apply endsComma_app.
      apply endsComma_hexrows, numberToString_nonempty.
    + intro H. do 3 apply endsComma_app. now apply endsComma_hexrows.
    + intro H. do 3 apply endsComma_app. now apply endsComma_hexrows.
  - change (last ((name, content) :: f :: files) ("", ""))
      with (last (f :: files) ("", "")).
    rewrite compileLoop_cons. apply IH. discriminate.
Qed.

Lemma compileArrays_read order files :
  files <> [] ->
  Forall (fun f => fst f <> EmptyString /\ commentSafe (fst f) = true)
    files ->
  let a := Resource.compileArrays order files in
  initializer Elem (c_positions a) = Some (positionsOf order 0 0 files) /\
  initializer Elem (c_filenames a) = Some (namesOf files) /\
  initializer Elem (c_data a) = Some (contentsOf files).
Proof.
  intros Hne Hnames.
  assert (Hsafe : Forall (fun f => commentSafe (fst f) = true) files).
  { eapply Forall_impl; [|exact Hnames]. now intros f [_ H]. }
  assert (Hlast : fst (last files ("", "")) <> EmptyString).
  { destruct (exists_last Hne) as (init & f & ->).
    rewrite last_last. rewrite Forall_app in Hnames.
    destruct Hnames as [_ Hf]. inversion Hf as [|? ? [H _] _]; subst.
    exact H. }
  pose proof (compileLoop_denotes order files true (mkArrays "" "" "" 0 0)
                EmptyString EmptyString EmptyString
                denotes_nil denotes_nil denotes_nil Hsafe) as (Dp & Dn & Dd).
  pose proof (compileLoop_ends order files true (mkArrays "" "" "" 0 0) Hne)
    as (Ep & En & Ed).
  cbn [c_filenamesLen c_dataLen String.append] in Dp, Dn, Dd.
  unfold Resource.compileArrays.
  cbn [c_positions c_filenames c_data].
  split; [|split].
  - now apply initializer_removeLast.
  - apply initializer_removeLast; auto.
  - destruct (String.eqb_spec (snd (last files ("", ""))) "") as [E|E].
    + now apply initializer_denotes.
    + apply initializer_removeLast; auto.
Qed.

(** ** Reading the emitted file *)

Lemma allChars_app p a b :
  allChars p (a ++ b) = allChars p a && allChars p b.
Proof.
  induction a as [|c a IH]; cbn [String.append allChars]; [reflexivity|].
  now rewrite IH, andb_assoc.
Qed.

Lemma allChars_impl (p q : ascii -> bool) s :
  (forall c, p c = true -> q c = true) ->
  allChars p s = true -> allChars q s = true.
Proof.
  intro Hpq. induction s as [|c s IH]; cbn [allChars]; [reflexivity|].
  intro H. apply andb_prop in H. destruct H as [Hc Hs].
  now rewrite (Hpq c Hc), IH.
Qed.

Lemma allChars_removeLast p s :
  allChars p s = true -> allChars p (removeLast s) = true.
Proof.
  induction s as [|c s IH]; [reflexivity|].
  cbn [allChars]. intro H. apply andb_prop in H. destruct H as [Hc Hs].
  destruct s as [|c' s]; [reflexivity|].
  change (removeLast (String c (String c' s)))
    with (String c (removeLast (String c' s))).
  cbn [allChars]. now rewrite Hc, IH.
Qed.

Lemma identChar_ordinary c : identChar c = true -> ordinary c = true.
Proof. destruct c as [[] [] [] [] [] [] [] []]; vm_compute; congruence. Qed.

Lemma literalChar_ordinary c : literalChar c = true -> ordinary c = true.
Proof. destruct c as [[] [] [] [] [] [] [] []]; vm_compute; congruence. Qed.

Lemma literalChar_quote c :
  literalChar c = true -> (N_of_ascii c =? 34)%N = false.
Proof. destruct c as [[] [] [] [] [] [] [] []]; vm_compute; congruence. Qed.

Lemma ordinary_hexbyte c : allChars ordinary (hexbyte c) = true.
Proof. destruct c as [[] [] [] [] [] [] [] []]; reflexivity. Qed.

Lemma ordinary_hexrows data :
  forall col, allChars ordinary (hexrows col data) = true.
Proof.
  induction data as [|c data IH]; intro col; cbn [hexrows]; [reflexivity|].
  rewrite !allChars_app, ordinary_hexbyte, IH.
  destruct (Nat.eqb col 0); reflexivity.
Qed.

Lemma ordinary_to_string n : allChars ordinary (Resource.to_string n) = true.
Proof.
  unfold Resource.to_string.
  induction (Nat.to_uint n) as [|d IH|d IH|d IH|d IH|d IH|d IH|d IH|d IH|d IH|d IH];
    cbn [NilEmpty.string_of_uint allChars]; [reflexivity|..];
    rewrite IH; reflexivity.
Qed.

Lemma expect_app chars rest : expect chars (chars ++ rest) = Some rest.
Proof.
  induction chars as [|c chars IH]; cbn [String.append expect].
  - destruct rest; reflexivity.
  - now rewrite Ascii.eqb_refl.
Qed.

Lemma identifier_app name c rest :
  allChars identChar name = true -> identChar c = false ->
  identifier (name ++ String c rest) = (name, String c rest).
Proof.
  intros Hname Hc. induction name as [|c' name IH].
  - cbn [String.append identifier]. now rewrite Hc.
  - cbn [allChars] in Hname. apply andb_prop in Hname.
    destruct Hname as [Hc' Hname].
    cbn [String.append identifier]. now rewrite Hc', IH.
Qed.

Lemma stringLiteral_app group c rest :
  allChars literalChar group = true ->
  (N_of_ascii c =? 34)%N = true ->
  stringLiteral (group ++ String c rest) = Some (group, rest).
Proof.
  intros Hgroup Hc. induction group as [|c' group IH].
  - cbn [String.append stringLiteral]. now rewrite Hc.
  - cbn [allChars] in Hgroup. apply andb_prop in Hgroup.
    destruct Hgroup as [Hc' Hgroup].
    cbn [String.append stringLiteral].
    now rewrite (literalChar_quote c' Hc'), Hc', IH.
Qed.

Lemma expect_nil text : expect EmptyString text = Some text.
Proof. destruct text; reflexivity. Qed.

(** The decimal text of a number reads back as the number. *)
Lemma digits_string_of_uint d :
  forall acc rest,
    (forall c r, rest = String c r -> digitOf c = None) ->
    digits (Z.of_nat acc) (NilEmpty.string_of_uint d ++ rest)
    = (Z.of_nat (Nat.of_uint_acc d acc), rest).
Proof.
  induction d as [|d IH|d IH|d IH|d IH|d IH|d IH|d IH|d IH|d IH|d IH];
    intros acc rest Hrest;
    cbn [NilEmpty.string_of_uint String.append Nat.of_uint_acc].
  1:{ destruct rest as [|c r]; [reflexivity|].
      cbn [digits]. now rewrite (Hrest c r eq_refl). }
  all: cbn [digits];
    match goal with
    | |- context [digitOf ?c] =>
        let v := eval vm_compute in (digitOf c) in
        change (digitOf c) with v
    end;
    cbv iota beta;
    rewrite <- (IH _ rest Hrest); f_equal;
    rewrite Nat.tail_mul_spec; lia.
Qed.

Lemma to_uint_unorm n : Decimal.unorm (Nat.to_uint n) = Nat.to_uint n.
Proof.
  rewrite <- DecimalNat.Unsigned.to_of.
  now rewrite DecimalNat.Unsigned.of_to.
Qed.

Lemma to_uint_normal n d : Nat.to_uint n = Decimal.D0 d -> d = Decimal.Nil.
Proof.
  intro E. pose proof (to_uint_unorm n) as Hnorm. rewrite E in Hnorm.
  unfold Decimal.unorm in Hnorm. cbn [Decimal.nzhead] in Hnorm.
  destruct (Decimal.nzhead d) as [|u|u|u|u|u|u|u|u|u|u] eqn:Ed;
    try (exfalso; exact (DecimalFacts.nzhead_nonzero d d
                           (eq_trans Ed Hnorm))).
  now injection Hnorm as <-.
Qed.

Lemma decimalLiteral_to_string n rest :
  (Z.of_nat n < 2 ^ 63)%Z ->
  (forall c r, rest = String c r -> digitOf c = None) ->
  decimalLiteral (Resource.to_string n ++ rest) = Some (Z.of_nat n, rest).
Proof.
  intros Hn Hrest. unfold Resource.to_string.
  pose proof (DecimalNat.Unsigned.of_to n) as Hof.
  unfold Nat.of_uint in Hof.
  destruct (Nat.to_uint n) as [|d|d|d|d|d|d|d|d|d|d] eqn:E;
    cbn [NilEmpty.string_of_uint String.append decimalLiteral].
  1:{ exfalso. apply (DecimalFacts.unorm_nonnil (Nat.to_uint n)).
      now rewrite to_uint_unorm. }
  1:{ apply to_uint_normal in E. subst d. cbn in Hof. subst n. reflexivity. }
  all: match goal with
       | |- context [digitOf ?c] =>
           let v := eval vm_compute in (digitOf c) in
           change (digitOf c) with v
       end;
    cbv iota beta;
    match goal with
    | |- context [digits ?k ?t] =>
        let m := eval vm_compute in (Z.to_nat k) in
        change (digits k t) with (digits (Z.of_nat m) t);
        rewrite (digits_string_of_uint d m rest Hrest);
        match type of Hof with
        | ?l = _ => change l with (Nat.of_uint_acc d m) in Hof
        end
    end;
    rewrite Hof;
    destruct (Z.ltb_spec (Z.of_nat n) (2 ^ 63)); [reflexivity|lia].
Qed.

(** The initializer of an array, and the same up to its closing brace. *)
Lemma arrayBody_initializer t :
  forall st bs rest,
    initializer st t = Some bs ->
    arrayBody st (t ++ String "}" rest) = Some (bs, rest).
Proof.
  induction t as [|c t IH]; intros st bs rest H.
  - cbn [initializer] in H. cbn [String.append arrayBody].
    destruct st; cbn in H |- *; try discriminate;
      try (injection H as <-; reflexivity).
    now rewrite H.
  - cbn [initializer] in H. cbn [String.append arrayBody].
    destruct (Ascii.eqb_spec c "}") as [->|Hc]; cbn [andb].
    + destruct st; cbn [commented negb]; cbn in H; try discriminate.
      * now apply IH.
      * now apply IH.
      * destruct (literal v); discriminate.
    + destruct (lexStep st c) as [[st' [b|]]|]; [| |discriminate].
      * destruct (initializer st' t) as [bs'|] eqn:E; [|discriminate].
        cbn [option_map] in H. injection H as <-.
        now rewrite (IH _ _ rest E).
      * now apply IH.
Qed.

Lemma initializer_newline t :
  forall st bs,
    initializer st t = Some bs -> initializer st (t ++ nl) = Some bs.
Proof.
  induction t as [|c t IH]; intros st bs H.
  - cbn [initializer] in H. cbn [String.append].
    destruct st; cbn in H |- *; try discriminate; try exact H.
    destruct (literal v); cbn in H |- *; [exact H|discriminate].
  - cbn [initializer] in H. cbn [String.append initializer].
    destruct (lexStep st c) as [[st' [b|]]|]; [| |discriminate].
    + destruct (initializer st' t) as [bs'|] eqn:E; [|discriminate].
      now rewrite (IH _ _ E).
    + now apply IH.
Qed.

Lemma arrayBody_line t bs c rest :
  initializer Elem t = Some bs ->
  (N_of_ascii c =? 10)%N = true ->
  arrayBody Elem (t ++ String c (String "}" rest)) = Some (bs, rest).
Proof.
  intros H Hc. apply N.eqb_eq in Hc.
  assert (E : c = ascii_of_N 10) by now rewrite <- Hc, ascii_N_embedding.
  subst c.
  change (String (ascii_of_N 10) (String "}" rest))
    with (nl ++ String "}" rest)%string.
  rewrite <- append_assoc.
  apply arrayBody_initializer. now apply initializer_newline.
Qed.

(** Comments between two declarations. *)
Lemma blanks_comment_body name :
  forall star rest,
    closesComment name = false ->
    (star = true -> forall name', name <> String "/" name') ->
    blanks (BlockComment star) (name ++ " */" ++ rest) = blanks Code rest.
Proof.
  induction name as [|c name IH]; intros star rest Hsafe Hstar.
  - destruct star; reflexivity.
  - apply closesComment_tail in Hsafe. destruct Hsafe as [Hsafe Hnext].
    cbn [String.append blanks].
    replace (star && Ascii.eqb c "/") with false.
    + apply IH; assumption.
    + destruct star; [|reflexivity].
      destruct (Ascii.eqb_spec c "/") as [->|_]; [|reflexivity].
      exfalso. exact (Hstar eq_refl name eq_refl).
Qed.

Lemma blank_nil : blank EmptyString.
Proof. intro rest. reflexivity. Qed.

Lemma blank_newline : blank nl.
Proof. intro rest. reflexivity. Qed.

Lemma blank_app X Y : blank X -> blank Y -> blank (X ++ Y).
Proof. intros HX HY rest. now rewrite append_assoc, HX, HY. Qed.

Lemma endsLine_app X Y : endsLine X -> blank Y -> endsLine (X ++ Y).
Proof. intros HX HY rest. now rewrite append_assoc, HX, HY. Qed.

Lemma blank_comment name : closesComment name = false -> blank (comment name).
Proof.
  intros Hsafe rest. unfold comment. rewrite !append_assoc.
  change (blanks (BlockComment false) (name ++ " */" ++ rest)
          = blanks Code rest).
  apply blanks_comment_body; [assumption|discriminate].
Qed.

Lemma endsLine_comment name :
  closesComment name = false -> endsLine (comment name).
Proof.
  intros Hsafe rest. unfold comment. rewrite !append_assoc.
  change (blanks (BlockComment false) (name ++ " */" ++ rest)
          = blanks Code rest).
  apply blanks_comment_body; [assumption|discriminate].
Qed.

(** ** The texts [compile] emits, read *)

Lemma ordinary_comment name :
  allChars ordinary name = true -> allChars ordinary (comment name) = true.
Proof.
  intro H. unfold comment. rewrite !allChars_app, H. reflexivity.
Qed.

Lemma compileLoop_ordinary order files :
  forall first acc,
    allChars ordinary (c_positions acc) = true ->
    allChars ordinary (c_filenames acc) = true ->
    allChars ordinary (c_data acc) = true ->
    Forall (fun f => allChars ordinary (fst f) = true) files ->
    let a := Resource.compileLoop order first files acc in
    allChars ordinary (c_positions a) = true /\
    allChars ordinary (c_filenames a) = true /\
    allChars ordinary (c_data a) = true.
Proof.
  induction files as [|[name content] files IH];
    intros first acc Hp Hn Hd Hsafe.
  - cbn. auto.
  - inversion Hsafe as [|? ? Hname Hrest]; subst. cbn [fst] in Hname.
    rewrite compileLoop_cons.
    apply IH; [| | |exact Hrest];
      cbn [c_positions c_filenames c_data]; unfold hexcode;
      rewrite !allChars_app, ?ordinary_hexrows, ?ordinary_comment
        by assumption.
    + now rewrite Hp.
    + rewrite Hn. destruct first; reflexivity.
    + rewrite Hd. destruct first; reflexivity.
Qed.

Lemma compileArrays_ordinary order files :
  Forall (fun f => allChars ordinary (fst f) = true) files ->
  let a := Resource.compileArrays order files in
  allChars ordinary (c_positions a) = true /\
  allChars ordinary (c_filenames a) = true /\
  allChars ordinary (c_data a) = true.
Proof.
  intro Hsafe.
  destruct (compileLoop_ordinary order files true (mkArrays "" "" "" 0 0)
              eq_refl eq_refl eq_refl Hsafe) as (Hp & Hn & Hd).
  unfold Resource.compileArrays. cbn [c_positions c_filenames c_data].
  split; [|split].
  - now apply allChars_removeLast.
  - now apply allChars_removeLast.
  - destruct (String.eqb _ _); [exact Hd|now apply allChars_removeLast].
Qed.

(** Without content the data array is comments only. *)
Lemma compileLoop_endsLine order files :
  forall first acc,
    endsLine (c_data acc) ->
    Forall (fun f => closesComment (fst f) = false /\ snd f = EmptyString)
      files ->
    endsLine (c_data (Resource.compileLoop order first files acc)).
Proof.
  induction files as [|[name content] files IH]; intros first acc Hd Hsafe.
  - exact Hd.
  - inversion Hsafe as [|? ? [Hname Hcontent] Hrest]; subst.
    cbn [fst snd] in Hname, Hcontent. subst content.
    rewrite compileLoop_cons. apply IH; [|exact Hrest].
    cbn [c_data]. apply endsLine_app; [exact Hd|].
    apply blank_app; [destruct first; [exact blank_nil|exact blank_newline]|].
    apply blank_app; [now apply blank_comment|exact blank_nil].
Qed.

Lemma compileArrays_endsLine order files :
  files <> [] ->
  Forall (fun f => closesComment (fst f) = false /\ snd f = EmptyString)
    files ->
  endsLine (c_data (Resource.compileArrays order files)).
Proof.
  intros Hne Hsafe.
  assert (Hlast : snd (last files ("", "")) = EmptyString).
  { destruct (exists_last Hne) as (init & f & ->).
    rewrite last_last. rewrite Forall_app in Hsafe.
    destruct Hsafe as [_ Hf]. inversion Hf as [|? ? [_ H] _]; subst.
    exact H. }
  unfold Resource.compileArrays. cbn [c_data]. rewrite Hlast.
  cbn [String.eqb].
  destruct files as [|[name content] files]; [contradiction|].
  inversion Hsafe as [|? ? [Hname Hcontent] Hrest]; subst.
  cbn [fst snd] in Hname, Hcontent. subst content.
  rewrite compileLoop_cons. apply compileLoop_endsLine; [|exact Hrest].
  cbn [c_data String.append]. unfold hexcode. cbn [hexrows].
  rewrite append_nil_r. now apply endsLine_comment.
Qed.

(** The two functions [compile] writes, for arguments that name arrays
    defined before them. *)
Lemma functions_text defined name group n a1 a2 a3 p f d :
  isIdentifier name = true ->
  plainLiteral group = true ->
  (Z.of_nat n < 2 ^ 63)%Z ->
  array ("resourceInitializer_" ++ name) defined = None ->
  array ("resourceFinalizer_" ++ name) defined = None ->
  (forall c rest, identChar c = false ->
     argument defined (a1 ++ String c rest) = Some (p, String c rest)) ->
  (forall c rest, identChar c = false ->
     argument defined (a2 ++ String c rest) = Some (f, String c rest)) ->
  (forall c rest, identChar c = false ->
     argument defined (a3 ++ String c rest) = Some (d, String c rest)) ->
  functions defined
    (Resource.fileFunctions name group
       (Resource.to_string n ++ ", " ++ a1 ++ ", " ++ a2 ++ ", " ++ a3))
  = Some (mkRegistration group (wrap (Z.of_nat n)) p f d).
Proof.
  intros Hname Hgroup Hn Hinit Hfin H1 H2 H3.
  unfold isIdentifier, plainLiteral in *.
  unfold functions, initializerFunction, Resource.fileFunctions.
  rewrite !append_assoc.
  repeat first
    [ progress cbn
    | rewrite expect_nil
    | rewrite expect_app
    | rewrite identifier_app by (assumption || reflexivity)
    | rewrite stringLiteral_app by (assumption || reflexivity)
    | rewrite decimalLiteral_to_string
        by (assumption || (intros ? ? [= <- _]; reflexivity))
    | rewrite H1 by reflexivity
    | rewrite H2 by reflexivity
    | rewrite H3 by reflexivity
    | progress unfold finalizerFunction ].
  cbn in Hinit, Hfin. now rewrite Hinit, Hfin.
Qed.

Lemma argument_nullptr defined c rest :
  identChar c = false ->
  argument defined ("nullptr" ++ String c rest) = Some (nullptr, String c rest).
Proof. intro Hc. unfold argument. cbn. now rewrite Hc. Qed.

Lemma argument_array defined a p c rest :
  allChars identChar a = true -> identChar c = false ->
  String.eqb a "nullptr" = false -> array a defined = Some p ->
  argument defined (a ++ String c rest) = Some (p, String c rest).
Proof.
  intros Ha Hc Hnull Hp. unfold argument.
  rewrite identifier_app by assumption. now rewrite Hnull, Hp.
Qed.

Lemma blanks_fileFunctions name group call :
  blanks Code (Resource.fileFunctions name group call)
  = Some (Resource.fileFunctions name group call).
Proof. reflexivity. Qed.

Lemma arrayDefinition_fileFunctions name group call :
  arrayDefinition (Resource.fileFunctions name group call) = None.
Proof. reflexivity. Qed.

Lemma arrayDefinitions_fileFunctions n defined name group call :
  arrayDefinitions n defined (Resource.fileFunctions name group call)
  = Some (defined, Resource.fileFunctions name group call).
Proof. destruct n; reflexivity. Qed.

Lemma ordinary_fileFunctions name group call :
  isIdentifier name = true -> plainLiteral group = true ->
  allChars ordinary call = true ->
  allChars ordinary (Resource.fileFunctions name group call) = true.
Proof.
  intros Hname Hgroup Hcall. unfold Resource.fileFunctions.
  rewrite !allChars_app, Hcall.
  rewrite (allChars_impl _ _ name identChar_ordinary Hname).
  rewrite (allChars_impl _ _ group literalChar_ordinary Hgroup).
  reflexivity.
Qed.

(** The file for an empty list. *)
Lemma emittedCall_compile_nil order name group :
  isIdentifier name = true -> plainLiteral group = true ->
  emittedCall (Resource.compile order name group [])
  = Some (mkRegistration group 0 nullptr nullptr nullptr).
Proof.
  intros Hname Hgroup. unfold emittedCall, Resource.compile.
  rewrite allChars_app, ordinary_fileFunctions by (assumption || reflexivity).
  change (allChars ordinary Resource.fileHeader) with true. cbn [andb].
  unfold prolog, includeDirective, Resource.fileHeader.
  cbn -[functions Resource.fileFunctions arrayDefinitions].
  rewrite blanks_fileFunctions. cbn [bind].
  rewrite arrayDefinitions_fileFunctions. cbn [bind].
  change "0, nullptr, nullptr, nullptr"
    with (Resource.to_string 0 ++ ", " ++ "nullptr" ++ ", " ++ "nullptr"
          ++ ", " ++ "nullptr")%string.
  apply functions_text; try assumption; try reflexivity;
    intros c rest Hc; now apply argument_nullptr.
Qed.

(** The file for three array texts. *)
Lemma emittedCall_arrays name group cp cf cd (hasData : bool) n P F D :
  isIdentifier name = true -> plainLiteral group = true ->
  allChars ordinary cp = true ->
  allChars ordinary cf = true ->
  allChars ordinary cd = true ->
  initializer Elem cp = Some P -> P <> EmptyString ->
  initializer Elem cf = Some F -> F <> EmptyString ->
  (if hasData
   then initializer Elem cd = Some D /\ D <> EmptyString
   else endsLine cd) ->
  (Z.of_nat n < 2 ^ 63)%Z ->
  emittedCall
    (Resource.fileHeader ++
     "static const unsigned char resourcePositions[] = {" ++
     cp ++ nl ++ "};" ++ nl ++ nl ++
     "static const unsigned char resourceFilenames[] = {" ++
     cf ++ nl ++ "};" ++ nl ++ nl ++
     (if hasData then "" else "// ") ++
     "static const unsigned char resourceData[] = {" ++
     cd ++ nl ++ (if hasData then "" else "// ") ++ "};" ++ nl ++ nl ++
     Resource.fileFunctions name group
       (Resource.to_string n ++
        ", resourcePositions, resourceFilenames, " ++
        (if hasData then "resourceData" else "nullptr")))
  = Some (mkRegistration group (wrap (Z.of_nat n)) (Ptr P 0) (Ptr F 0)
            (if hasData then Ptr D 0 else nullptr)).
Proof.
  intros Hname Hgroup Hcp Hcf Hcd HP HPne HF HFne HD Hn.
  unfold emittedCall.
  match goal with
  | |- (if allChars ordinary ?text then _ else _) = _ =>
      assert (Hord : allChars ordinary text = true)
  end.
  { rewrite !allChars_app, Hcp, Hcf, Hcd.
    rewrite ordinary_fileFunctions; try assumption.
    - destruct hasData; reflexivity.
    - rewrite !allChars_app, ordinary_to_string.
      destruct hasData; reflexivity. }
  rewrite Hord. clear Hord.
  destruct P as [|p0 P]; [contradiction|].
  destruct F as [|f0 F]; [contradiction|].
  unfold prolog, includeDirective, Resource.fileHeader.
  cbn -[functions Resource.fileFunctions].
  rewrite expect_nil.
  cbn -[functions Resource.fileFunctions].
  rewrite (arrayBody_line cp _ _ _ HP) by reflexivity.
  cbn -[functions Resource.fileFunctions].
  rewrite expect_nil.
  cbn -[functions Resource.fileFunctions].
  rewrite (arrayBody_line cf _ _ _ HF) by reflexivity.
  cbn -[functions Resource.fileFunctions].
  destruct hasData.
  - destruct HD as [HD HDne]. destruct D as [|d0 D]; [contradiction|].
    cbn -[functions Resource.fileFunctions].
    rewrite expect_nil.
    cbn -[functions Resource.fileFunctions].
    rewrite (arrayBody_line cd _ _ _ HD) by reflexivity.
    cbn -[functions Resource.fileFunctions].
    rewrite blanks_fileFunctions.
    cbn -[functions Resource.fileFunctions].
    change ", resourcePositions, resourceFilenames, resourceData"
      with (", " ++ "resourcePositions" ++ ", " ++ "resourceFilenames"
            ++ ", " ++ "resourceData")%string.
    apply functions_text; try assumption; try reflexivity;
      intros c rest Hc; now apply argument_array.
  - cbn -[functions Resource.fileFunctions].
    rewrite HD.
    cbn -[functions Resource.fileFunctions].
    rewrite blanks_fileFunctions.
    cbn -[functions Resource.fileFunctions].
    rewrite arrayDefinition_fileFunctions.
    cbn -[functions Resource.fileFunctions].
    change ", resourcePositions, resourceFilenames, nullptr"
      with (", " ++ "resourcePositions" ++ ", " ++ "resourceFilenames"
            ++ ", " ++ "nullptr")%string.
    apply functions_text; try assumption; try reflexivity;
      intros c rest Hc;
      solve [now apply argument_array | now apply argument_nullptr].
Qed.
(** ** The round trip *)

Lemma passes_small n :
  (8 * Z.of_nat n < 2 ^ 32)%Z ->
  Resource.passes (wrap (Z.of_nat n)) = n.
Proof.
  intro H. unfold Resource.passes.
  rewrite (wrap_small (Z.of_nat n)) by lia.
  rewrite wrap_small by (unfold size; lia).
  unfold size. replace (Z.of_nat n * 2 * 4)%Z with (Z.of_nat n * (2 * 4))%Z by lia.
  rewrite Z.div_mul by lia. apply Nat2Z.id.
Qed.

Lemma registerData_fresh order group count positions filenames data reg :
  StdMap.find group reg = None ->
  StdMap.find group
    (Resource.registerData order group count positions filenames data reg)
  = Some (GroupData.mk EmptyString
            (Resource.registerLoop order positions filenames data
               (Resource.passes count) 0 0 0 StdMap.empty)).
Proof.
  intro H. unfold Resource.registerData. rewrite H.
  now rewrite find_emplace_same, H.
Qed.

Lemma contentsOf_all_empty files :
  contentsOf files = EmptyString <->
  Forall (fun f => snd f = EmptyString) files.
Proof.
  induction files as [|[name content] files IH]; cbn [contentsOf].
  - split; [constructor|reflexivity].
  - split.
    + intro H. apply append_empty in H. destruct H as [-> H].
      constructor; [reflexivity|now apply IH].
    + intro H. inversion H as [|? ? Hc Hrest]; subst. cbn [snd] in Hc.
      subst content. now apply IH.
Qed.

Lemma length_files_names files :
  Forall (fun f => fst f <> EmptyString) files ->
  (List.length files <= String.length (namesOf files))%nat.
Proof.
  induction files as [|[name content] files IH]; intro H;
    cbn [List.length namesOf]; [lia|].
  inversion H as [|? ? Hname Hrest]; subst. cbn [fst] in Hname.
  rewrite length_append. specialize (IH Hrest).
  destruct name as [|c name]; [contradiction|]. cbn [String.length]. lia.
Qed.

Lemma compile_text order name group f files :
  let a := Resource.compileArrays order (f :: files) in
  let hasData := negb (Z.eqb (c_dataLen a) 0) in
  Resource.compile order name group (f :: files)
  = (Resource.fileHeader ++
     "static const unsigned char resourcePositions[] = {" ++
     c_positions a ++ nl ++ "};" ++ nl ++ nl ++
     "static const unsigned char resourceFilenames[] = {" ++
     c_filenames a ++ nl ++ "};" ++ nl ++ nl ++
     (if hasData then "" else "// ") ++
     "static const unsigned char resourceData[] = {" ++
     c_data a ++ nl ++ (if hasData then "" else "// ") ++ "};" ++ nl ++ nl ++
     Resource.fileFunctions name group
       (Resource.to_string (List.length (f :: files)) ++
        ", resourcePositions, resourceFilenames, " ++
        (if hasData then "resourceData" else "nullptr")))%string.
Proof. reflexivity. Qed.

(** The call the emitted file makes, for names that stand in its
    comments as they are. *)
Lemma emittedCall_compile order name group files :
  files <> [] ->
  isIdentifier name = true ->
  plainLiteral group = true ->
  Forall (fun f => fst f <> EmptyString /\ commentSafe (fst f) = true) files ->
  (Z.of_nat (String.length (namesOf files)) < 2 ^ 32)%Z ->
  (Z.of_nat (String.length (contentsOf files)) < 2 ^ 32)%Z ->
  emittedCall (Resource.compile order name group files)
  = Some (mkRegistration group (wrap (Z.of_nat (List.length files)))
            (Ptr (positionsOf order 0 0 files) 0)
            (Ptr (namesOf files) 0)
            (emittedData files)).
Proof.
  intros Hne Hname Hgroup Hfiles BF BD.
  assert (Hnames : Forall (fun f => fst f <> EmptyString
                                    /\ closesComment (fst f) = false) files).
  { eapply Forall_impl; [|exact Hfiles]. intros f [H1 H2].
    unfold commentSafe in H2. apply andb_prop in H2.
    split; [exact H1|]. now destruct (closesComment (fst f)). }
  assert (Hord : Forall (fun f => allChars ordinary (fst f) = true) files).
  { eapply Forall_impl; [|exact Hfiles]. intros f [_ H2].
    unfold commentSafe in H2. now apply andb_prop in H2. }
  assert (Hcount : (Z.of_nat (List.length files) < 2 ^ 63)%Z).
  { assert (H : (List.length files <= String.length (namesOf files))%nat).
    { apply length_files_names. eapply Forall_impl; [|exact Hnames].
      now intros f [H _]. }
    lia. }
  destruct (compileArrays_read order files Hne Hfiles) as (Rp & Rn & Rd).
  destruct (compileArrays_ordinary order files Hord) as (Op & On & Od).
  destruct (compileLoop_totals order files true (mkArrays "" "" "" 0 0))
    as [_ Hlen]; cbn [c_filenamesLen c_dataLen]; try lia.
  cbn [c_dataLen] in Hlen.
  assert (Hdata : negb (c_dataLen (Resource.compileArrays order files) =? 0)%Z
                  = negb (String.eqb (contentsOf files) "")).
  { unfold Resource.compileArrays. cbn [c_dataLen]. rewrite Hlen.
    destruct (contentsOf files); reflexivity. }
  assert (HP : positionsOf order 0 0 files <> EmptyString).
  { destruct files as [|[n c] files]; [contradiction|].
    cbn [positionsOf]. intro E. apply append_empty in E.
    exact (numberToString_nonempty _ _ (proj1 E)). }
  assert (HF : namesOf files <> EmptyString).
  { destruct files as [|[n c] files]; [contradiction|].
    inversion Hnames as [|? ? [Hn _] _]; subst. cbn [namesOf fst] in *.
    intro E. apply append_empty in E. exact (Hn (proj1 E)). }
  assert (HD : if negb (String.eqb (contentsOf files) "")
               then initializer Elem
                      (c_data (Resource.compileArrays order files))
                    = Some (contentsOf files)
                    /\ contentsOf files <> EmptyString
               else endsLine (c_data (Resource.compileArrays order files))).
  { destruct (String.eqb_spec (contentsOf files) "") as [E|E]; cbn [negb].
    - apply compileArrays_endsLine; [exact Hne|].
      apply contentsOf_all_empty in E.
      rewrite Forall_forall in *. intros f Hin.
      split; [exact (proj2 (Hnames f Hin))|exact (E f Hin)].
    - split; assumption. }
  replace (emittedData files)
    with (if negb (String.eqb (contentsOf files) "")
          then Ptr (contentsOf files) 0 else nullptr)
    by (unfold emittedData; destruct (contentsOf files); reflexivity).
  destruct files as [|f files]; [contradiction|].
  rewrite compile_text. cbv zeta. rewrite Hdata.
  now apply emittedCall_arrays.
Qed.

(** C1, as the code has it. For a non-empty list of files whose names are
    not empty and stand in a comment as they are (no comment end, no
    backslash, no question mark), with less than [2^29] files and less
    than [2^32] bytes of names and of contents, the file [compile] emits
    for an identifier [name] and a group that is a plain string literal
    holds an initializer that registers, for a group not yet registered,
    the manifest that maps every name to the bytes of its content: the
    map built by emplacing the files in their order, its keys in
    [std::string] order. When the names are distinct, the manifest holds
    exactly the (name, content) pairs of the list, and each name is found
    with its content byte for byte. *)
Theorem compile_registerData_round_trip order name group files reg :
  files <> [] ->
  isIdentifier name = true ->
  plainLiteral group = true ->
  Forall (fun f => fst f <> EmptyString /\ commentSafe (fst f) = true) files ->
  (8 * Z.of_nat (List.length files) < 2 ^ 32)%Z ->
  (Z.of_nat (String.length (namesOf files)) < 2 ^ 32)%Z ->
  (Z.of_nat (String.length (contentsOf files)) < 2 ^ 32)%Z ->
  StdMap.find group reg = None ->
  exists call gd,
    emittedCall (Resource.compile order name group files) = Some call /\
    r_group call = group /\
    StdMap.find group (runInitializer order call reg) = Some gd /\
    entries (GroupData.resources gd) = manifestOf files /\
    StdMap.ordered (GroupData.resources gd) /\
    (NoDup (map fst files) ->
     Permutation (entries (GroupData.resources gd)) files /\
     forall name content,
       In (name, content) files ->
       exists view,
         StdMap.find name (GroupData.resources gd) = Some view /\
         bytes view = content).
Proof.
  intros Hne Hname Hgroup Hnames Bn BF BD Hfresh.
  eexists. eexists.
  split; [now apply emittedCall_compile|].
  split; [reflexivity|].
  unfold runInitializer.
  cbn [r_group r_count r_positions r_filenames r_data].
  split; [now apply registerData_fresh|].
  cbn [GroupData.resources].
  rewrite passes_small by assumption.
  assert (Hord : StdMap.ordered
            (Resource.registerLoop order (Ptr (positionsOf order 0 0 files) 0)
               (Ptr (namesOf files) 0) (emittedData files)
               (List.length files) 0 0 0 StdMap.empty)).
  { apply registerLoop_ordered. constructor. }
  rewrite (registerLoop_views order _ _ _ files EmptyString EmptyString 0%nat)
    in * by (try reflexivity; cbn [String.length]; lia).
  assert (Hentries : entries (viewsOf (emittedData files) 0 files StdMap.empty)
                     = manifestOf files).
  { unfold manifestOf, emittedData. destruct (contentsOf files) as [|c s] eqn:E.
    - now apply entries_viewsOf_null.
    - rewrite <- E. now apply (entries_viewsOf _ files EmptyString). }
  split; [exact Hentries|]. split; [exact Hord|].
  intro Hnd.
  assert (Hperm : Permutation (manifestOf files) files).
  { apply (fold_emplace_Permutation files []). exact Hnd. }
  rewrite Hentries. split; [exact Hperm|].
  intros name' content Hin.
  apply (Permutation_in _ (Permutation_sym Hperm)) in Hin.
  rewrite <- Hentries in Hin. unfold entries in Hin.
  apply in_map_iff in Hin. destruct Hin as ([k view] & E & Hin).
  cbn [fst snd] in E. injection E as -> <-.
  exists view. split; [|reflexivity].
  apply In_find; [|exact Hin]. now apply ordered_NoDup.
Qed.

(** C1, the reading the code does not bear. Of two files with one name
    the manifest keeps the first only; files given out of name order come
    back in name order; and a name that holds a comment end leaves a file
    that is not read as a resource file. *)
Lemma round_trip_not_the_file_list :
  (exists call gd,
     emittedCall
       (Resource.compile LittleEndian "res" "G" [("a", "x"); ("a", "y")])
     = Some call /\
     StdMap.find "G" (runInitializer LittleEndian call StdMap.empty) = Some gd /\
     entries (GroupData.resources gd) = [("a", "x")] /\
     entries (GroupData.resources gd) <> [("a", "x"); ("a", "y")]) /\
  (exists call gd,
     emittedCall
       (Resource.compile LittleEndian "res" "G" [("b", "1"); ("a", "2")])
     = Some call /\
     StdMap.find "G" (runInitializer LittleEndian call StdMap.empty) = Some gd /\
     entries (GroupData.resources gd) = [("a", "2"); ("b", "1")] /\
     entries (GroupData.resources gd) <> [("b", "1"); ("a", "2")]) /\
  emittedCall (Resource.compile LittleEndian "res" "G" [("a*/b", "x")]) = None.
Proof.
  split; [|split].
  - eexists. eexists. split; [vm_compute; reflexivity|].
    split; [reflexivity|]. split; [reflexivity|]. discriminate.
  - eexists. eexists. split; [vm_compute; reflexivity|].
    split; [reflexivity|]. split; [reflexivity|]. discriminate.
  - vm_compute. reflexivity.
Qed.

(** C5. For an empty file list the file [compile] emits (for an
    identifier [name] and a group that is a plain string literal) defines
    no array, and its initializer calls
    [registerData(group, 0, nullptr, nullptr, nullptr)]; and
    [registerData] with [count = 0] for a group not yet registered gives
    it a manifest without entries, whatever the three pointers, so that
    [list()] on the group returns no name. *)
Theorem empty_file_list order name group positions filenames data reg :
  isIdentifier name = true ->
  plainLiteral group = true ->
  StdMap.find group reg = None ->
  emittedCall (Resource.compile order name group [])
    = Some (mkRegistration group 0 nullptr nullptr nullptr) /\
  let reg' := Resource.registerData order group 0 positions filenames data reg in
  StdMap.find group reg' = Some (GroupData.mk EmptyString StdMap.empty) /\
  forall loadConfiguration,
    exists r,
      Resource.new loadConfiguration reg' group = (Returned r, []) /\
      Resource.list reg' r = Returned [].
Proof.
  intros Hname Hgroup Hfresh.
  split; [now apply emittedCall_compile_nil|].
  intro reg'.
  assert (H : StdMap.find group reg' =
              Some (GroupData.mk EmptyString StdMap.empty)).
  { unfold reg', Resource.registerData. rewrite Hfresh.
    rewrite find_emplace_same, Hfresh. reflexivity. }
  split; [exact H|].
  intro loadConfiguration. exists (Resource.mk (Some group) None).
  unfold Resource.new, Resource.list. simpl. rewrite H. simpl. auto.
Qed.

(** The count in the emitted call is the decimal text of
    [files.size()]: it reads back as that number. *)
Lemma count_literal n :
  option_map Nat.of_uint (NilEmpty.uint_of_string (Resource.to_string n))
  = Some n.
Proof.
  unfold Resource.to_string. rewrite NilEmpty.usu. simpl.
  now rewrite DecimalNat.Unsigned.of_to.
Qed.

(** ** The loop of [registerData] as the source steps it *)

Lemma registerLoop_steps_counted order positions filenames data n :
  forall fuel i oldF oldD res,
    (n <= fuel)%nat ->
    (0 <= i)%Z ->
    (i + 8 * Z.of_nat n < 2 ^ 32)%Z ->
    Resource.registerLoop_steps order positions filenames data fuel
      (i + 8 * Z.of_nat n) i oldF oldD res
    = Some (Resource.registerLoop order positions filenames data n
              i oldF oldD res).
Proof.
  induction n as [|n IH]; intros fuel i oldF oldD res Hfuel Hi Hbound.
  - replace (i + 8 * Z.of_nat 0)%Z with i by lia.
    destruct fuel; cbn [Resource.registerLoop_steps Resource.registerLoop];
      now rewrite Z.eqb_refl.
  - destruct fuel as [|fuel]; [lia|].
    cbn [Resource.registerLoop_steps Resource.registerLoop].
    destruct (Z.eqb_spec i (i + 8 * Z.of_nat (S n))) as [E|_]; [lia|].
    assert (Hnext : wrap (i + 2 * size) = (i + 8)%Z).
    { rewrite wrap_small; unfold size; lia. }
    rewrite Hnext.
    replace (i + 8 * Z.of_nat (S n))%Z with (i + 8 + 8 * Z.of_nat n)%Z by lia.
    apply IH; lia.
Qed.

Lemma wrap_count count :
  wrap (count * 2 * size) = (8 * Z.of_nat (Resource.passes count))%Z.
Proof.
  unfold Resource.passes.
  assert (H : wrap (count * 2 * size) = (count mod 2 ^ 29 * 8)%Z).
  { unfold wrap, size.
    replace (count * 2 * 4)%Z with (count * 8)%Z by lia.
    change (2 ^ (8 * 4))%Z with (2 ^ 29 * 8)%Z.
    apply Z.mul_mod_distr_r; lia. }
  rewrite H. unfold size. change (2 * 4)%Z with 8%Z.
  rewrite Z.div_mul by lia.
  rewrite Z2Nat.id by (apply Z.mod_pos_bound; lia). lia.
Qed.

(** The loop of the source ends, after [passes count] passes, with the
    map of the counted loop. *)
Lemma registerLoop_steps_passes order positions filenames data count res fuel :
  (Resource.passes count <= fuel)%nat ->
  Resource.registerLoop_steps order positions filenames data fuel
    (wrap (count * 2 * size)) 0 0 0 res
  = Some (Resource.registerLoop order positions filenames data
            (Resource.passes count) 0 0 0 res).
Proof.
  intro Hfuel. rewrite wrap_count.
  apply (registerLoop_steps_counted order positions filenames data
           (Resource.passes count) fuel 0); [exact Hfuel|lia|].
  rewrite <- wrap_count. unfold wrap.
  assert (0 <= (count * 2 * size) mod 2 ^ (8 * size) < 2 ^ (8 * size))%Z
    by (apply Z.mod_pos_bound; unfold size; lia).
  unfold size in *. change (2 ^ (8 * 4))%Z with (2 ^ 32)%Z in *. lia.
Qed.

(** ** What the fixed width of the counters costs *)

Lemma passes_wraps : Resource.passes (2 ^ 29) = 0%nat.
Proof. reflexivity. Qed.

Lemma positions_wrap order name content content' :
  Z.of_nat (String.length content')
    = (Z.of_nat (String.length content) + 2 ^ 32)%Z ->
  positionsOf order 0 0 [(name, content')]
  = positionsOf order 0 0 [(name, content)].
Proof.
  intro H. cbn [positionsOf]. rewrite H. f_equal. f_equal. f_equal.
  unfold wrap, size. change (2 ^ (8 * 4))%Z with (2 ^ 32)%Z.
  rewrite Z.add_assoc.
  rewrite <- (Z.mul_1_l (2 ^ 32)) at 1.
  now rewrite Z.mod_add by lia.
Qed.

(* ================================================================== *)
(** * The properties on the example data *)

Lemma example_assets_reachable : reachable LittleEndian Example.assets.
Proof.
  unfold Example.assets, Example.run.
  destruct (emittedCall _).
  - unfold runInitializer. apply reach_register, reach_empty.
  - apply reach_empty.
Defined.

Lemma example_handleG :
  handle Example.fileExists Example.read Example.join Example.path
    Example.loadConfiguration Example.overridden Example.handleG.
Proof.
  apply (handle_new _ _ _ _ _ _ "G" _
           [mkOutput DebugOutput
              ["Utility::Resource: group"; "'G'"; "overriden with";
               "'dev/resources.conf'"]]).
  reflexivity.
Defined.

Lemma list_sorted_no_duplicates_witness :
  Resource.list Example.assets Example.assetsHandle
    = Returned ["readme.txt"; "shader.vert"] /\
  StronglySorted StdMap.slt ["readme.txt"; "shader.vert"] /\
  NoDup ["readme.txt"; "shader.vert"].
Proof.
  split; [reflexivity|].
  pose proof (list_sorted_no_duplicates LittleEndian Example.assets
                Example.assetsHandle ["readme.txt"; "shader.vert"]
                example_assets_reachable eq_refl) as (Hsorted & Hnodup & _).
  split; assumption.
Defined.

Lemma empty_file_list_witness :
  isIdentifier "res" = true /\
  plainLiteral "assets" = true /\
  StdMap.find "assets" (@StdMap.empty GroupData.t) = None /\
  emittedCall (Resource.compile LittleEndian "res" "assets" [])
    = Some (mkRegistration "assets" 0 nullptr nullptr nullptr) /\
  StdMap.find "assets"
    (Resource.registerData LittleEndian "assets" 0
       (Ptr "junk" 0) nullptr (Ptr "junk" 2) StdMap.empty)
    = Some (GroupData.mk EmptyString StdMap.empty).
Proof.
  split; [reflexivity|]. split; [reflexivity|]. split; [reflexivity|].
  destruct (empty_file_list LittleEndian "res" "assets"
              (Ptr "junk" 0) nullptr (Ptr "junk" 2) StdMap.empty
              eq_refl eq_refl eq_refl) as (Hcall & Hgroup & _).
  split; [exact Hcall|exact Hgroup].
Defined.

Lemma unknown_group_asserts_witness :
  StdMap.find "fonts" Example.assets = None /\
  Resource.unregisterData "fonts" Example.assets =
    (AssertFailed
       ["Utility::Resource: resource group"; "fonts"; "is not registered"] tt,
     Example.assets).
Proof.
  split; [reflexivity|].
  exact (proj1 (proj2
           (unknown_group_asserts Example.loadConfiguration "fonts"
              "dev/resources.conf" Example.assets eq_refl))).
Defined.

Lemma getRaw_first_declared_match_wins_witness :
  Resource.getRaw Example.fileExists Example.read Example.join Example.path
    Example.overridden Example.handleG "a"
  = loaded Example.fileExists Example.read Example.handleG Example.override
      "a" "dev/a.txt".
Proof.
  apply (getRaw_first_declared_match_wins
           Example.fileExists Example.read Example.join Example.path
           Example.overridden Example.handleG "G" Example.groupG
           Example.override "a" []
           (ConfigurationGroup.mk "a.txt" (Some "a"))
           [ConfigurationGroup.mk "c.txt" (Some "c");
            ConfigurationGroup.mk "z.txt" (Some "a")]);
    try reflexivity.
  constructor.
Defined.

Lemma getRaw_load_failure_propagates_witness :
  Resource.getRaw Example.fileExists Example.read Example.join Example.path
    Example.overridden Example.handleG "c"
  = (Returned nullReference, Example.handleG,
     [mkOutput ErrorOutput ["    Error: cannot open file"; "dev/c.txt"]]).
Proof.
  exact (proj1
           (getRaw_load_failure_propagates
              Example.fileExists Example.read Example.join Example.path
              Example.overridden Example.handleG "G" Example.groupG
              Example.override "c"
              (ConfigurationGroup.mk "c.txt" (Some "c"))
              eq_refl eq_refl eq_refl eq_refl eq_refl eq_refl)).
Defined.

Lemma getRaw_not_found_asserts_witness :
  Resource.getRaw Example.fileExists Example.read Example.join Example.path
    Example.overridden Example.handleG "missing.png"
  = (AssertFailed
       ["Utility::Resource::get(): file"; "'missing.png'";
        "was not found in group"; "'G'"]
       nullReference,
     Example.handleG, [fallbackWarning "missing.png"]).
Proof.
  exact (proj1
           (getRaw_not_found_asserts
              Example.fileExists Example.read Example.join Example.path
              Example.loadConfiguration Example.overridden Example.handleG
              "G" Example.groupG "missing.png"
              example_handleG eq_refl eq_refl eq_refl eq_refl)).
Defined.

Lemma override_shadows_compiled_in_witness :
  StdMap.find "a" (GroupData.resources Example.groupG)
    = Some (mkArrayReference (Ptr "oldold" 0) 3) /\
  bytes (mkArrayReference (Ptr "oldold" 0) 3) = "old" /\
  bytes (mkArrayReference (Ptr "new" 0) 3) = "new" /\
  (exists r' out,
     Resource.getRaw Example.fileExists Example.read Example.join Example.path
       Example.overridden Example.handleG "a"
     = (Returned (mkArrayReference (Ptr "new" 0) 3), r', out)) /\
  Resource.getRaw Example.fileExists Example.read Example.join Example.path
    Example.overridden Example.handleG "b"
  = (Returned (mkArrayReference (Ptr "oldold" 3) 3), Example.handleG,
     [fallbackWarning "b"]) /\
  Resource.getRaw Example.fileExists Example.read Example.join Example.path
    Example.overridden Example.handleG "c"
  = (Returned nullReference, Example.handleG,
     [mkOutput ErrorOutput ["    Error: cannot open file"; "dev/c.txt"]]).
Proof.
  pose proof (override_shadows_compiled_in
                Example.fileExists Example.read Example.join Example.path
                Example.loadConfiguration Example.overridden Example.handleG
                "G" Example.groupG Example.override
                example_handleG eq_refl eq_refl eq_refl) as (Ha & Hb & Hc).
  split; [reflexivity|]. split; [reflexivity|]. split; [reflexivity|].
  split; [|split].
  - exact (Ha "a" (ConfigurationGroup.mk "a.txt" (Some "a")) eq_refl eq_refl).
  - exact (Hb "b" (mkArrayReference (Ptr "oldold" 3) 3) eq_refl eq_refl).
  - exact (Hc "c" (ConfigurationGroup.mk "c.txt" (Some "c")) eq_refl eq_refl).
Defined.

Lemma compile_registerData_round_trip_witness :
  exists call gd,
    emittedCall (Resource.compile LittleEndian "res" "assets" Example.files)
      = Some call /\
    r_group call = "assets" /\
    StdMap.find "assets" (runInitializer LittleEndian call StdMap.empty)
      = Some gd /\
    entries (GroupData.resources gd) = manifestOf Example.files /\
    StdMap.ordered (GroupData.resources gd) /\
    (NoDup (map fst Example.files) ->
     Permutation (entries (GroupData.resources gd)) Example.files /\
     forall name content,
       In (name, content) Example.files ->
       exists view,
         StdMap.find name (GroupData.resources gd) = Some view /\
         bytes view = content).
Proof.
  apply (compile_registerData_round_trip LittleEndian "res" "assets"
           Example.files StdMap.empty).
  - discriminate.
  - reflexivity.
  - reflexivity.
  - repeat constructor; discriminate.
  - vm_compute. reflexivity.
  - vm_compute. reflexivity.
  - vm_compute. reflexivity.
  - reflexivity.
Defined.

(* ================================================================== *)
(** * Further properties of the code *)

(* ------------------------------------------------------------------ *)
(** ** The codec *)

Lemma le_value_le_bytes_mod k n :
  le_value (le_bytes k n) = (n mod 256 ^ Z.of_nat k)%Z.
Proof.
  revert n. induction k as [|k IH]; intro n.
  - cbn [le_bytes le_value]. now rewrite Z.pow_0_r, Z.mod_1_r.
  - cbn [le_bytes le_value]. rewrite IH.
    assert (Hb : (0 <= n mod 256 < 256)%Z) by (apply Z.mod_pos_bound; lia).
    rewrite N_ascii_embedding by lia.
    rewrite Z2N.id by lia.
    rewrite Nat2Z.inj_succ, Z.pow_succ_r by lia.
    symmetry. apply Z.rem_mul_r; [lia|].
    apply Z.pow_pos_nonneg; lia.
Qed.

(** X1. The four bytes [numberToString] makes of a number, read at their
    place in an array the way [registerData] reads a position, give the
    number modulo [2^32], in either byte order: the number itself when it
    fits [unsigned int]. *)
Theorem numberToString_read_back order n pre post :
  String.length (Resource.numberToString order n) = Z.to_nat size /\
  Resource.readUnsigned order
    (ptr_add (Ptr (pre ++ Resource.numberToString order n ++ post) 0)
       (String.length pre))
  = wrap n.
Proof.
  split; [apply length_numberToString|].
  unfold Resource.readUnsigned.
  change (Z.to_nat size) with 4%nat.
  rewrite <- (length_numberToString order n).
  simpl ptr_add. rewrite load_at.
  unfold Resource.numberToString, wrap, size. destruct order.
  - apply le_value_le_bytes_mod.
  - rewrite reverse_involutive. apply le_value_le_bytes_mod.
Qed.


Lemma length_hexbyte c : String.length (hexbyte c) = 5%nat.
Proof. reflexivity. Qed.

Lemma length_hexrows data :
  forall col,
    (col < 15)%nat ->
    Z.of_nat (String.length (hexrows col data))
    = (5 * Z.of_nat (String.length data)
       + 5 * ((Z.of_nat col + Z.of_nat (String.length data) + 14) / 15
              - (Z.of_nat col + 14) / 15))%Z.
Proof.
  induction data as [|c data IH]; intros col Hcol.
  - cbn [hexrows String.length]. rewrite Z.add_0_r. lia.
  - cbn [hexrows]. rewrite !length_append, length_hexbyte.
    cbn [String.length].
    set (n := String.length data) in *.
    destruct (Nat.eqb_spec col 0) as [->|Hc0].
    + change (Nat.eqb 1 15) with false. cbv iota.
      rewrite !Nat2Z.inj_add, (IH 1%nat) by lia.
      change (String.length (nl ++ "    ")) with 5%nat.
      rewrite Nat2Z.inj_succ. cbn [Z.of_nat].
      Z.div_mod_to_equations. lia.
    + destruct (Nat.eqb_spec (S col) 15) as [E|E].
      * rewrite !Nat2Z.inj_add, (IH 0%nat) by lia.
        cbn [String.length]. rewrite Nat2Z.inj_succ.
        assert (Z.of_nat col = 14%Z) by lia.
        Z.div_mod_to_equations. lia.
      * rewrite !Nat2Z.inj_add, (IH (S col)) by lia.
        cbn [String.length]. rewrite !Nat2Z.inj_succ.
        assert (1 <= Z.of_nat col <= 13)%Z by lia.
        Z.div_mod_to_equations. lia.
Qed.

(** X3. The size of the text of [hexcode]: five characters for every
    byte and five more to open every row, a row holding up to fifteen
    bytes. No bytes, no text. *)
Theorem hexcode_length data :
  Z.of_nat (String.length (hexcode data))
  = (5 * Z.of_nat (String.length data)
     + 5 * ((Z.of_nat (String.length data) + 14) / 15))%Z /\
  (hexcode data = EmptyString <-> data = EmptyString).
Proof.
  split.
  - unfold hexcode. rewrite (length_hexrows data 0) by lia.
    change (Z.of_nat 0) with 0%Z. change ((0 + 14) / 15)%Z with 0%Z.
    rewrite Z.add_0_l, Z.sub_0_r. reflexivity.
  - split.
    + destruct data; [reflexivity|discriminate].
    + intros ->. reflexivity.
Qed.

(** X4. The loop of [registerData] leaves when [i] equals [count*2*size]
    computed in [unsigned int]. Whatever the count and the arrays, it
    ends, after as many passes as the count modulo [2^29], with the map
    the counted loop gives. *)
Theorem registerData_loop_ends order positions filenames data count res extra :
  Resource.registerLoop_steps order positions filenames data
    (Resource.passes count + extra) (wrap (count * 2 * size)) 0 0 0 res
  = Some (Resource.registerLoop order positions filenames data
            (Resource.passes count) 0 0 0 res) /\
  Resource.passes count = Z.to_nat (count mod 2 ^ 29).
Proof.
  split.
  - apply registerLoop_steps_passes. lia.
  - unfold Resource.passes, wrap, size.
    replace (count * 2 * 4)%Z with (count * 8)%Z by lia.
    change (2 ^ (8 * 4))%Z with (2 ^ 29 * 8)%Z.
    rewrite Z.mul_mod_distr_r by lia.
    change (2 * 4)%Z with 8%Z. now rewrite Z.div_mul by lia.
Qed.

(* ------------------------------------------------------------------ *)
(** ** The registry *)

Lemma erase_insert {V : Type} (m : StdMap.t V) k v :
  StdMap.find k m = None -> StdMap.erase k (StdMap.insert k v m) = m.
Proof.
  induction m as [|[k' v'] m IH]; simpl.
  - now rewrite String.eqb_refl.
  - destruct (String.eqb_spec k k') as [->|Hne]; [discriminate|].
    intro H. destruct (String.ltb k k'); simpl.
    + now rewrite String.eqb_refl.
    + destruct (String.eqb_spec k k'); [contradiction|].
      now rewrite IH.
Qed.

Lemma find_erase_other {V : Type} (m : StdMap.t V) k k' :
  k' <> k -> StdMap.find k' (StdMap.erase k m) = StdMap.find k' m.
Proof.
  intro Hne. induction m as [|[k0 v0] m IH]; simpl; [reflexivity|].
  destruct (String.eqb_spec k k0) as [->|Hk].
  - destruct (String.eqb_spec k' k0); [contradiction|reflexivity].
  - simpl. now rewrite IH.
Qed.

Lemma find_assign_other {V : Type} (m : StdMap.t V) k k' v :
  k' <> k -> StdMap.find k' (StdMap.assign k v m) = StdMap.find k' m.
Proof.
  intro Hne. induction m as [|[k0 v0] m IH]; simpl; [reflexivity|].
  destruct (String.eqb_spec k k0) as [->|Hk]; simpl.
  - destruct (String.eqb_spec k' k0); [contradiction|reflexivity].
  - now rewrite IH.
Qed.

Lemma find_assign_same {V : Type} (m : StdMap.t V) k v v0 :
  StdMap.find k m = Some v0 -> StdMap.find k (StdMap.assign k v m) = Some v.
Proof.
  induction m as [|[k0 v1] m IH]; simpl; [discriminate|].
  destruct (String.eqb_spec k k0) as [->|Hk]; simpl.
  - now rewrite String.eqb_refl.
  - destruct (String.eqb_spec k k0); [contradiction|exact IH].
Qed.

Lemma keys_assign {V : Type} (m : StdMap.t V) k v :
  StdMap.keys (StdMap.assign k v m) = StdMap.keys m.
Proof.
  induction m as [|[k0 v0] m IH]; simpl; [reflexivity|].
  destruct (String.eqb k k0); simpl; [reflexivity|].
  now f_equal.
Qed.

Lemma keys_erase_incl {V : Type} (m : StdMap.t V) k x :
  In x (StdMap.keys (StdMap.erase k m)) -> In x (StdMap.keys m).
Proof.
  induction m as [|[k0 v0] m IH]; simpl; [auto|].
  destruct (String.eqb k k0); simpl; intuition.
Qed.

Lemma erase_ordered {V : Type} (m : StdMap.t V) k :
  StdMap.ordered m -> StdMap.ordered (StdMap.erase k m).
Proof.
  unfold StdMap.ordered.
  induction m as [|[k0 v0] m IH]; simpl; intro Hs; [constructor|].
  inversion Hs as [|? ? Hs' Hall]; subst.
  destruct (String.eqb k k0); simpl; [exact Hs'|].
  constructor; [now apply IH|].
  rewrite Forall_forall in *. intros x Hx.
  apply Hall. exact (keys_erase_incl m k x Hx).
Qed.

(** The registry itself keeps its keys, the group names, in order. *)
Lemma reachable_ordered order reg : reachable order reg -> StdMap.ordered reg.
Proof.
  induction 1 as [|group count positions filenames data reg _ IH
                  |group reg _ IH|group file reg _ IH].
  - constructor.
  - unfold Resource.registerData.
    destruct (StdMap.find group reg); [exact IH|].
    now apply emplace_ordered.
  - unfold Resource.unregisterData.
    destruct (StdMap.find group reg); simpl; [|exact IH].
    now apply erase_ordered.
  - unfold Resource.overrideGroup.
    destruct (StdMap.find group reg); simpl; [|exact IH].
    unfold StdMap.ordered. now rewrite keys_assign.
Qed.

(** X5. [unregisterData] undoes [registerData]: for a group that was not
    registered, registering it and unregistering it leaves the registry
    exactly as it was, whatever was registered. *)
Theorem register_then_unregister order group count positions filenames data reg :
  StdMap.find group reg = None ->
  Resource.unregisterData group
    (Resource.registerData order group count positions filenames data reg)
  = (Returned tt, reg).
Proof.
  intro Hfresh. unfold Resource.unregisterData.
  rewrite registerData_fresh by assumption.
  unfold Resource.registerData. rewrite Hfresh.
  unfold StdMap.emplace. rewrite Hfresh.
  now rewrite erase_insert.
Qed.

(** X6. The three static functions touch one group only: after
    [registerData], [unregisterData] or [overrideGroup] for a group,
    every other group has the entry it had. *)
Theorem other_groups_untouched order group other
    count positions filenames data configurationFile reg :
  other <> group ->
  StdMap.find other
    (Resource.registerData order group count positions filenames data reg)
  = StdMap.find other reg /\
  StdMap.find other (snd (Resource.unregisterData group reg))
  = StdMap.find other reg /\
  StdMap.find other (snd (Resource.overrideGroup group configurationFile reg))
  = StdMap.find other reg.
Proof.
  intro Hne. split; [|split].
  - unfold Resource.registerData.
    destruct (StdMap.find group reg); [reflexivity|].
    now apply find_emplace_other.
  - unfold Resource.unregisterData.
    destruct (StdMap.find group reg); simpl; [|reflexivity].
    now apply find_erase_other.
  - unfold Resource.overrideGroup.
    destruct (StdMap.find group reg); simpl; [|reflexivity].
    now apply find_assign_other.
Qed.

(** X7. In a registry built by the three static functions,
    [unregisterData] of a registered group returns normally and the group
    is gone: constructing a [Resource] for it asserts, and a later
    [registerData] for it registers the new arrays -- unlike a second
    [registerData] without [unregisterData] between. *)
Theorem unregister_frees_the_group order loadConfiguration group gd
    count positions filenames data reg :
  reachable order reg ->
  StdMap.find group reg = Some gd ->
  let reg' := snd (Resource.unregisterData group reg) in
  fst (Resource.unregisterData group reg) = Returned tt /\
  StdMap.find group reg' = None /\
  Resource.new loadConfiguration reg' group =
    (AssertFailed ["Utility::Resource: group"; quoted group; "was not found"]
       (Resource.mk None None), []) /\
  StdMap.find group
    (Resource.registerData order group count positions filenames data reg')
  = Some (GroupData.mk EmptyString
            (Resource.registerLoop order positions filenames data
               (Resource.passes count) 0 0 0 StdMap.empty)).
Proof.
  intros Hreach Hgd reg'.
  assert (Hgone : StdMap.find group reg' = None).
  { unfold reg', Resource.unregisterData. rewrite Hgd. simpl.
    apply find_erase_same. now apply (reachable_ordered order). }
  split; [|split; [exact Hgone|split]].
  - unfold Resource.unregisterData. now rewrite Hgd.
  - unfold Resource.new. now rewrite Hgone.
  - now apply registerData_fresh.
Qed.

(** X8. [overrideGroup] on a registered group records the path and leaves
    the manifest: [list()] answers as before through every handle. The
    path takes effect at the next construction: the handle then carries
    the configuration loaded from the path with an empty cache, and no
    override when the path is empty. *)
Theorem overrideGroup_takes_effect_at_construction loadConfiguration
    group gd configurationFile reg :
  StdMap.find group reg = Some gd ->
  let reg' := snd (Resource.overrideGroup group configurationFile reg) in
  fst (Resource.overrideGroup group configurationFile reg) = Returned tt /\
  StdMap.find group reg'
    = Some (GroupData.mk configurationFile (GroupData.resources gd)) /\
  (forall r, Resource.list reg' r = Resource.list reg r) /\
  fst (Resource.new loadConfiguration reg' group)
  = Returned
      (Resource.mk (Some group)
         (if String.eqb configurationFile ""
          then None
          else Some (OverrideData.mk (loadConfiguration configurationFile)
                       StdMap.empty))).
Proof.
  intros Hgd reg'.
  assert (Hnew : StdMap.find group reg'
                 = Some (GroupData.mk configurationFile
                           (GroupData.resources gd))).
  { unfold reg', Resource.overrideGroup. rewrite Hgd. simpl.
    now apply (find_assign_same reg group _ gd). }
  split; [|split; [exact Hnew|split]].
  - unfold Resource.overrideGroup. now rewrite Hgd.
  - intro r. unfold Resource.list.
    destruct (Resource._group r) as [g|]; [|reflexivity].
    destruct (String.eqb_spec g group) as [->|Hne].
    + now rewrite Hnew, Hgd.
    + unfold reg', Resource.overrideGroup. rewrite Hgd. simpl.
      now rewrite find_assign_other.
  - unfold Resource.new. rewrite Hnew. simpl.
    destruct (String.eqb configurationFile ""); reflexivity.
Qed.

(* ------------------------------------------------------------------ *)
(** ** The cache of an override *)

(** X9. A file of the override that was loaded once is served from the
    cache from then on: the same view, no output, the handle as it is --
    whatever the disk holds by then, the file removed or rewritten. *)
Theorem getRaw_served_from_cache fileExists read join path
    fileExists' read' join' path' reg r g gd o filename file :
  Resource._group r = Some g ->
  StdMap.find g reg = Some gd ->
  Resource._overrideGroup r = Some o ->
  StdMap.find filename (OverrideData.data o) = None ->
  firstMatch filename (Configuration.files (OverrideData.conf o)) = Some file ->
  fileExists (overridePath join path gd file) = true ->
  let contents := read (overridePath join path gd file) in
  let view := mkArrayReference (a_begin contents) (a_size contents) in
  let r' :=
    Resource.mk (Some g)
      (Some (OverrideData.mk (OverrideData.conf o)
               (StdMap.emplace filename contents (OverrideData.data o)))) in
  Resource.getRaw fileExists read join path reg r filename
    = (Returned view, r', []) /\
  Resource.getRaw fileExists' read' join' path' reg r' filename
    = (Returned view, r', []).
Proof.
  intros Hg Hgd Ho Hmiss Hmatch Hex contents view r'.
  split.
  - rewrite (getRaw_cache_miss fileExists read join path reg r g gd o filename)
      by assumption.
    rewrite Hmatch. unfold loaded. rewrite Hex, Hg. reflexivity.
  - apply (getRaw_cache_hit fileExists' read' join' path' reg r' g gd
             (OverrideData.mk (OverrideData.conf o)
                (StdMap.emplace filename contents (OverrideData.data o)))
             filename contents); try reflexivity; try assumption.
    cbn [OverrideData.data]. now rewrite find_emplace_same, Hmiss.
Qed.

(** X10. [getRaw] never rebinds a handle and never drops what it cached:
    after any call the handle is on the same group, an override is there
    exactly if it was, with the same configuration, and every file that
    was in the cache is still there, unchanged. *)
Theorem getRaw_keeps_the_cache fileExists read join path reg r filename :
  let r' := snd (fst (Resource.getRaw fileExists read join path reg r filename)) in
  Resource._group r' = Resource._group r /\
  match Resource._overrideGroup r with
  | None => Resource._overrideGroup r' = None
  | Some o =>
      exists o',
        Resource._overrideGroup r' = Some o' /\
        OverrideData.conf o' = OverrideData.conf o /\
        forall name a,
          StdMap.find name (OverrideData.data o) = Some a ->
          StdMap.find name (OverrideData.data o') = Some a
  end.
Proof.
  destruct r as [rg ro]. unfold Resource.getRaw. cbn [Resource._group
    Resource._overrideGroup].
  destruct rg as [g|]; [|destruct ro; cbn; eauto].
  destruct (StdMap.find g reg) as [gd|]; [|destruct ro; cbn; eauto].
  destruct ro as [o|]; [|cbn; eauto].
  destruct (StdMap.find filename (OverrideData.data o)) as [a|] eqn:Hc;
    [cbn; eauto|].
  rewrite overrideLoop_firstMatch.
  destruct (firstMatch filename _) as [file|]; [|cbn; eauto].
  cbv zeta. destruct (fileExists _); cbn; [|eauto].
  split; [reflexivity|]. eexists. split; [reflexivity|]. split; [reflexivity|].
  intros name a Hfind. cbn [OverrideData.data].
  destruct (String.eqb_spec name filename) as [->|Hne]; [congruence|].
  now rewrite find_emplace_other.
Qed.

(* ------------------------------------------------------------------ *)
(** ** From the file list to the handle *)

Lemma emitted_group order name group files reg :
  files <> [] ->
  isIdentifier name = true ->
  plainLiteral group = true ->
  Forall (fun f => fst f <> EmptyString /\ commentSafe (fst f) = true) files ->
  (8 * Z.of_nat (List.length files) < 2 ^ 32)%Z ->
  (Z.of_nat (String.length (namesOf files)) < 2 ^ 32)%Z ->
  (Z.of_nat (String.length (contentsOf files)) < 2 ^ 32)%Z ->
  StdMap.find group reg = None ->
  let call :=
    mkRegistration group (wrap (Z.of_nat (List.length files)))
      (Ptr (positionsOf order 0 0 files) 0) (Ptr (namesOf files) 0)
      (emittedData files) in
  emittedCall (Resource.compile order name group files) = Some call /\
  StdMap.find group (runInitializer order call reg)
  = Some (GroupData.mk EmptyString
            (viewsOf (emittedData files) 0 files StdMap.empty)).
Proof.
  intros Hne Hname Hgroup Hnames Bn BF BD Hfresh call.
  split; [now apply emittedCall_compile|].
  unfold runInitializer, call.
  cbn [r_group r_count r_positions r_filenames r_data].
  rewrite registerData_fresh by assumption.
  rewrite passes_small by assumption.
  rewrite (registerLoop_views order _ _ _ files EmptyString EmptyString 0%nat)
    by (try reflexivity; cbn [String.length]; lia).
  reflexivity.
Qed.

Lemma entries_emitted files :
  entries (viewsOf (emittedData files) 0 files StdMap.empty) = manifestOf files.
Proof.
  unfold manifestOf, emittedData.
  destruct (contentsOf files) as [|c s] eqn:E.
  - now apply entries_viewsOf_null.
  - rewrite <- E. now apply (entries_viewsOf _ files EmptyString).
Qed.

Lemma viewsOf_ordered data files :
  forall off res,
    StdMap.ordered res -> StdMap.ordered (viewsOf data off files res).
Proof.
  induction files as [|[name content] files IH]; intros off res Hres;
    cbn [viewsOf]; [exact Hres|].
  apply IH. now apply emplace_ordered.
Qed.

Lemma viewsOf_nonNull D files :
  forall off res,
    Forall (fun e => nonNull (snd e) = true) res ->
    Forall (fun e => nonNull (snd e) = true) (viewsOf (Ptr D 0) off files res).
Proof.
  induction files as [|[name content] files IH]; intros off res Hres;
    cbn [viewsOf]; [exact Hres|].
  apply IH. now apply Forall_emplace.
Qed.

Lemma contentsOf_empty files name content :
  contentsOf files = EmptyString -> In (name, content) files ->
  content = EmptyString.
Proof.
  induction files as [|[n c] files IH]; cbn [contentsOf]; intros H Hin;
    [contradiction|].
  apply append_empty in H. destruct H as [-> H].
  destruct Hin as [E|Hin]; [now injection E as _ <-|auto].
Qed.

Lemma keys_entries m : StdMap.keys (entries m) = StdMap.keys m.
Proof.
  unfold StdMap.keys, entries. rewrite map_map. reflexivity.
Qed.

Lemma emitted_views files :
  NoDup (map fst files) ->
  let m := viewsOf (emittedData files) 0 files StdMap.empty in
  Permutation (StdMap.keys m) (map fst files) /\
  forall name content,
    In (name, content) files ->
    exists view,
      StdMap.find name m = Some view /\
      bytes view = content /\
      (nonNull view = false -> content = EmptyString).
Proof.
  intros Hnd m.
  assert (Hperm : Permutation (entries m) files).
  { unfold m. rewrite entries_emitted.
    apply (fold_emplace_Permutation files []). exact Hnd. }
  split.
  - rewrite <- keys_entries. unfold StdMap.keys. now apply Permutation_map.
  - intros name content Hin.
    pose proof Hin as Hin'.
    apply (Permutation_in _ (Permutation_sym Hperm)) in Hin'.
    unfold entries in Hin'. apply in_map_iff in Hin'.
    destruct Hin' as ([k view] & E & Hview). cbn [fst snd] in E.
    injection E as -> <-.
    exists view. split; [|split; [reflexivity|]].
    + apply In_find; [|exact Hview].
      apply ordered_NoDup. apply viewsOf_ordered. constructor.
    + intro Hnull. unfold m, emittedData in Hview.
      destruct (contentsOf files) as [|c s] eqn:E.
      * exact (contentsOf_empty files name _ E Hin).
      * pose proof (viewsOf_nonNull (String c s) files 0 StdMap.empty
                      (Forall_nil _)) as Hall.
        rewrite Forall_forall in Hall. specialize (Hall _ Hview).
        cbn [snd] in Hall. congruence.
Qed.

Lemma get_emitted fileExists read join path group files reg name content :
  NoDup (map fst files) ->
  StdMap.find group reg
  = Some (GroupData.mk EmptyString
            (viewsOf (emittedData files) 0 files StdMap.empty)) ->
  In (name, content) files ->
  Resource.get fileExists read join path reg
    (Resource.mk (Some group) None) name
  = (Returned content, Resource.mk (Some group) None, []).
Proof.
  intros Hnd Hgroup Hin.
  destruct (emitted_views files Hnd) as [_ Hviews].
  destruct (Hviews name content Hin) as (view & Hfind & Hbytes & Hnull).
  unfold Resource.get, Resource.getRaw.
  cbn [Resource._group Resource._overrideGroup]. rewrite Hgroup.
  unfold Resource.compiledIn. cbn [GroupData.resources]. rewrite Hfind.
  cbn [outcome_map]. fold (bytes view). rewrite Hbytes.
  destruct (nonNull view); [reflexivity|].
  now rewrite Hnull.
Qed.

(** X11. What is compiled is what is served. For a file list as in C1
    with pairwise distinct names, after the initializer of the file
    [compile] emits ran for a group not yet registered, a [Resource] on
    the group is constructed without output and without override; [get]
    returns the content of every file, byte for byte; [list()] returns
    the names of the files and no other; and [getRaw] of any other name
    asserts. None of this depends on the file system. *)
Theorem compiled_files_are_served order fileExists read join path
    loadConfiguration name group files reg :
  files <> [] ->
  isIdentifier name = true ->
  plainLiteral group = true ->
  Forall (fun f => fst f <> EmptyString /\ commentSafe (fst f) = true) files ->
  (8 * Z.of_nat (List.length files) < 2 ^ 32)%Z ->
  (Z.of_nat (String.length (namesOf files)) < 2 ^ 32)%Z ->
  (Z.of_nat (String.length (contentsOf files)) < 2 ^ 32)%Z ->
  NoDup (map fst files) ->
  StdMap.find group reg = None ->
  exists call,
    emittedCall (Resource.compile order name group files) = Some call /\
    let reg' := runInitializer order call reg in
    let r := Resource.mk (Some group) None in
    Resource.new loadConfiguration reg' group = (Returned r, []) /\
    (forall file content,
       In (file, content) files ->
       Resource.get fileExists read join path reg' r file
         = (Returned content, r, [])) /\
    (exists names,
       Resource.list reg' r = Returned names /\
       Permutation names (map fst files)) /\
    (forall file,
       ~ In file (map fst files) ->
       Resource.getRaw fileExists read join path reg' r file
         = (AssertFailed
              ["Utility::Resource::get(): file"; quoted file;
               "was not found in group"; quoted group]
              nullReference, r, [])).
Proof.
  intros Hne Hname Hgroup' Hnames Bn BF BD Hnd Hfresh.
  destruct (emitted_group order name group files reg
              Hne Hname Hgroup' Hnames Bn BF BD Hfresh) as [Hcall Hgroup].
  destruct (emitted_views files Hnd) as [Hkeys Hviews].
  eexists. split; [exact Hcall|].
  cbv zeta. split; [|split; [|split]].
  - unfold Resource.new. rewrite Hgroup. reflexivity.
  - intros file content Hin. now apply (get_emitted _ _ _ _ group files).
  - eexists. split.
    + unfold Resource.list. cbn [Resource._group]. rewrite Hgroup.
      reflexivity.
    + exact Hkeys.
  - intros file Hout.
    unfold Resource.getRaw.
    cbn [Resource._group Resource._overrideGroup]. rewrite Hgroup.
    unfold Resource.compiledIn. cbn [GroupData.resources].
    replace (StdMap.find file
               (viewsOf (emittedData files) 0 files StdMap.empty))
      with (@None ArrayReference); [reflexivity|].
    symmetry. apply find_None_keys. intro Hin. apply Hout.
    exact (Permutation_in _ Hkeys Hin).
Qed.

Lemma length_positionsOf order files :
  forall fl dl,
    String.length (positionsOf order fl dl files) = (8 * List.length files)%nat.
Proof.
  induction files as [|[name content] files IH]; intros fl dl;
    cbn [positionsOf List.length]; [reflexivity|].
  rewrite !length_append, !length_numberToString, IH. lia.
Qed.

(** X12. The arrays of the file [compile] emits for a file list as in
    C1, as its initializer passes them: the group, the number of files,
    the names one after the other, the contents one after the other, and
    a positions table of [2*sizeof(unsigned int)] bytes per file. The
    data array is left out and [nullptr] passed exactly when no file has
    content. *)
Theorem emitted_arrays_layout order name group files :
  files <> [] ->
  isIdentifier name = true ->
  plainLiteral group = true ->
  Forall (fun f => fst f <> EmptyString /\ commentSafe (fst f) = true) files ->
  (Z.of_nat (String.length (namesOf files)) < 2 ^ 32)%Z ->
  (Z.of_nat (String.length (contentsOf files)) < 2 ^ 32)%Z ->
  exists call positions,
    emittedCall (Resource.compile order name group files) = Some call /\
    r_group call = group /\
    r_count call = wrap (Z.of_nat (List.length files)) /\
    r_positions call = Ptr positions 0 /\
    Z.of_nat (String.length positions)
      = (2 * size * Z.of_nat (List.length files))%Z /\
    r_filenames call = Ptr (namesOf files) 0 /\
    (r_data call = nullptr <-> Forall (fun f => snd f = EmptyString) files) /\
    (r_data call <> nullptr -> r_data call = Ptr (contentsOf files) 0).
Proof.
  intros Hne Hname Hgroup Hnames BF BD.
  eexists. exists (positionsOf order 0 0 files).
  split; [now apply emittedCall_compile|].
  cbn [r_group r_count r_positions r_filenames r_data].
  split; [reflexivity|]. split; [reflexivity|]. split; [reflexivity|].
  split; [rewrite length_positionsOf; unfold size; lia|].
  split; [reflexivity|].
  rewrite <- contentsOf_all_empty. unfold emittedData.
  destruct (contentsOf files); split.
  - split; reflexivity.
  - intro H. now contradiction H.
  - split; discriminate.
  - reflexivity.
Qed.

(* ------------------------------------------------------------------ *)
(** ** Packaging: [compileFrom] *)

Section CompileFrom.

Variable order : byte_order.
Variable fileExists : string -> bool.
Variable read : string -> Array.
Variable join : string -> string -> string.
Variable path : string -> string.
Variable loadConfiguration : string -> Configuration.t.
Variable hasGroup : Configuration.t -> bool.

Local Abbreviation compileFrom :=
  (Resource.compileFrom order fileExists read join path loadConfiguration
     hasGroup).
Local Abbreviation compileFromLoop :=
  (Resource.compileFromLoop fileExists read join).

Lemma compileFromLoop_result dir group total files :
  forall fileData,
    fst (compileFromLoop dir group total files fileData)
    = if forallb (loadable fileExists join dir) files
      then Some (fileData ++ map (fileDataOf read join dir) files)
      else None.
Proof.
  induction files as [|file files IH]; intro fileData;
    cbn [Resource.compileFromLoop forallb map].
  - now rewrite app_nil_r.
  - unfold loadable at 1.
    destruct (String.eqb (ConfigurationGroup.filename file) "");
      [reflexivity|].
    destruct (String.eqb (Resource.entryName file) ""); [reflexivity|].
    cbn [negb orb andb]. unfold Resource.fileContents.
    destruct (fileExists _); cbn [negb]; [|reflexivity].
    specialize (IH (fileData ++ [fileDataOf read join dir file])).
    unfold fileDataOf at 1 in IH.
    destruct (Resource.compileFromLoop _ _ _ _ _ _ _ _) as [result out'].
    cbn [fst] in IH |- *. rewrite IH, <- app_assoc. reflexivity.
Qed.

Lemma last_app_nonempty (l l' : list output) d :
  l' <> [] -> last (l ++ l') d = last l' d.
Proof.
  intro Hne. induction l as [|a l IH]; [reflexivity|].
  cbn [app]. destruct (l ++ l') eqn:E; [|exact IH].
  apply app_eq_nil in E. destruct E as [_ E]. contradiction.
Qed.

Lemma compileFromLoop_errors dir group total files :
  forall fileData,
    let out := snd (compileFromLoop dir group total files fileData) in
    if forallb (loadable fileExists join dir) files
    then filter isError out = []
    else exists msg,
           filter isError out = [mkOutput ErrorOutput msg] /\
           last out (mkOutput DebugOutput []) = mkOutput ErrorOutput msg.
Proof.
  induction files as [|file files IH]; intro fileData;
    cbn [Resource.compileFromLoop forallb]; [reflexivity|].
  unfold loadable at 1.
  destruct (String.eqb (ConfigurationGroup.filename file) "");
    [cbn; eauto|].
  destruct (String.eqb (Resource.entryName file) ""); [cbn; eauto|].
  cbn [negb orb andb]. unfold Resource.fileContents.
  assert (Hshown :
    forall tail,
      filter isError
        ((if negb (String.eqb (Resource.entryName file)
                     (ConfigurationGroup.filename file))
          then [mkOutput DebugOutput [" ->"; Resource.entryName file]]
          else []) ++ tail)
      = filter isError tail).
  { intro tail. destruct (negb _); reflexivity. }
  destruct (fileExists _); cbn [negb andb].
  - specialize (IH (fileData
                    ++ [(Resource.entryName file,
                         load (a_begin (read (join dir
                                 (ConfigurationGroup.filename file))))
                              (a_size (read (join dir
                                 (ConfigurationGroup.filename file)))))])).
    destruct (Resource.compileFromLoop _ _ _ _ _ _ _ _) as [result out'].
    cbn [snd] in IH |- *. cbn [app].
    destruct (forallb _ files).
    + cbn [filter isError level]. rewrite Hshown. exact IH.
    + destruct IH as (msg & Hfilter & Hlast). exists msg. split.
      * cbn [filter isError level]. rewrite Hshown. exact Hfilter.
      * rewrite !app_comm_cons, last_app_nonempty; [exact Hlast|].
        intro E. rewrite E in Hfilter. discriminate.
  - cbn [snd]. eexists. split.
    + cbn [app filter isError level]. rewrite Hshown. reflexivity.
    + rewrite !app_comm_cons. apply last_last.
Qed.

Lemma compile_nonempty name group files :
  Resource.compile order name group files <> EmptyString.
Proof. destruct files; discriminate. Qed.

(** X13. [compileFrom] is all or nothing. It returns the text [compile]
    makes of the group and of every entry's alias and file content, in
    the order of the entries, when the configuration file exists, has a
    group, and every entry has a filename and an alias that are not empty
    and a file that is there. In every other case it returns the empty
    string -- and only then, the text of [compile] never being empty. *)
Theorem compileFrom_all_or_nothing name configurationFile :
  let conf := loadConfiguration configurationFile in
  let dir := path configurationFile in
  let ok :=
    fileExists configurationFile && hasGroup conf &&
    forallb (loadable fileExists join dir) (Configuration.files conf) in
  fst (compileFrom name configurationFile)
  = (if ok
     then Resource.compile order name (Configuration.group conf)
            (map (fileDataOf read join dir) (Configuration.files conf))
     else EmptyString) /\
  (fst (compileFrom name configurationFile) = EmptyString <-> ok = false).
Proof.
  intros conf dir ok.
  assert (H : fst (compileFrom name configurationFile)
              = if ok
                then Resource.compile order name (Configuration.group conf)
                       (map (fileDataOf read join dir)
                          (Configuration.files conf))
                else EmptyString).
  { unfold ok, Resource.compileFrom.
    destruct (fileExists configurationFile); [|reflexivity].
    fold conf dir. destruct (hasGroup conf); [|reflexivity].
    cbn [negb andb].
    pose proof (compileFromLoop_result dir (Configuration.group conf)
                  (List.length (Configuration.files conf))
                  (Configuration.files conf) []) as Hloop.
    destruct (Resource.compileFromLoop _ _ _ _ _ _ _ _) as [result out].
    cbn [fst] in Hloop. rewrite Hloop.
    destruct (forallb _ _); reflexivity. }
  split; [exact H|]. rewrite H.
  destruct ok; split; try reflexivity; try discriminate.
  intro E. exfalso. exact (compile_nonempty _ _ _ E).
Qed.

(** X14. Every failure of [compileFrom] is reported: when it returns the
    empty string its output holds exactly one error message, which is the
    last thing printed; when it returns a text it printed no error. *)
Theorem compileFrom_reports_failure name configurationFile :
  let result := compileFrom name configurationFile in
  if String.eqb (fst result) ""
  then exists msg,
         filter isError (snd result) = [mkOutput ErrorOutput msg] /\
         last (snd result) (mkOutput DebugOutput [])
           = mkOutput ErrorOutput msg
  else filter isError (snd result) = [].
Proof.
  cbv zeta. unfold Resource.compileFrom.
  destruct (fileExists configurationFile); [|cbn; eauto].
  destruct (hasGroup (loadConfiguration configurationFile)); [|cbn; eauto].
  cbn [negb].
  pose proof (compileFromLoop_result (path configurationFile)
                (Configuration.group (loadConfiguration configurationFile))
                (List.length
                   (Configuration.files (loadConfiguration configurationFile)))
                (Configuration.files (loadConfiguration configurationFile))
                []) as Hres.
  pose proof (compileFromLoop_errors (path configurationFile)
                (Configuration.group (loadConfiguration configurationFile))
                (List.length
                   (Configuration.files (loadConfiguration configurationFile)))
                (Configuration.files (loadConfiguration configurationFile))
                []) as Herr.
  cbv zeta in Herr.
  destruct (Resource.compileFromLoop _ _ _ _ _ _ _ _) as [fileData out].
  cbn [fst snd] in Hres, Herr.
  destruct (forallb _ _); subst fileData; cbn [fst snd].
  - destruct (String.eqb_spec
                (Resource.compile order name
                   (Configuration.group (loadConfiguration configurationFile))
                   ([] ++ map (fileDataOf read join (path configurationFile))
                      (Configuration.files
                         (loadConfiguration configurationFile)))) "")
      as [E|_]; [|exact Herr].
    exfalso. exact (compile_nonempty _ _ _ E).
  - exact Herr.
Qed.

End CompileFrom.

(** X15. From the configuration file to the handle: when [compileFrom]
    gets through a configuration whose group is a plain string literal
    and whose aliases are pairwise distinct and stand in a comment as
    they are (sizes as in C1), the initializer of the file it returns
    registers, under the group of the configuration, every entry under
    its alias -- the filename where no alias is declared -- and [get] of
    that name returns the bytes the file had when it was packaged,
    whatever the disk holds when it is asked. *)
Theorem packaged_files_are_served order fileExists read join path
    loadConfiguration hasGroup fileExists' read' join' path'
    loadConfiguration' name configurationFile reg :
  let conf := loadConfiguration configurationFile in
  let dir := path configurationFile in
  let fileData := map (fileDataOf read join dir) (Configuration.files conf) in
  fileExists configurationFile = true ->
  hasGroup conf = true ->
  forallb (loadable fileExists join dir) (Configuration.files conf) = true ->
  Configuration.files conf <> [] ->
  isIdentifier name = true ->
  plainLiteral (Configuration.group conf) = true ->
  Forall (fun file => commentSafe (Resource.entryName file) = true)
    (Configuration.files conf) ->
  NoDup (map Resource.entryName (Configuration.files conf)) ->
  (8 * Z.of_nat (List.length fileData) < 2 ^ 32)%Z ->
  (Z.of_nat (String.length (namesOf fileData)) < 2 ^ 32)%Z ->
  (Z.of_nat (String.length (contentsOf fileData)) < 2 ^ 32)%Z ->
  StdMap.find (Configuration.group conf) reg = None ->
  exists call,
    emittedCall
      (fst (Resource.compileFrom order fileExists read join path
              loadConfiguration hasGroup name configurationFile))
    = Some call /\
    r_group call = Configuration.group conf /\
    let reg' := runInitializer order call reg in
    let r := Resource.mk (Some (Configuration.group conf)) None in
    Resource.new loadConfiguration' reg' (Configuration.group conf)
      = (Returned r, []) /\
    forall file,
      In file (Configuration.files conf) ->
      Resource.get fileExists' read' join' path' reg' r
        (Resource.entryName file)
      = (Returned (snd (fileDataOf read join dir file)), r, []).
Proof.
  intros conf dir fileData Hex Hgroup Hload Hne Hname Hplain Hsafe Hnd
    Bn BF BD Hfresh.
  assert (Hnames : map fst fileData
                   = map Resource.entryName (Configuration.files conf)).
  { unfold fileData. rewrite map_map. reflexivity. }
  assert (Hne' : fileData <> []).
  { unfold fileData. destruct (Configuration.files conf);
      [contradiction|discriminate]. }
  assert (Hok : Forall (fun f => fst f <> EmptyString
                                 /\ commentSafe (fst f) = true) fileData).
  { unfold fileData. apply Forall_map. rewrite Forall_forall in *.
    intros file Hin. cbn [fileDataOf fst]. split; [|now apply Hsafe].
    rewrite forallb_forall in Hload. specialize (Hload file Hin).
    unfold loadable in Hload.
    apply andb_prop in Hload. destruct Hload as [Hload _].
    apply andb_prop in Hload. destruct Hload as [_ Halias].
    intro E. rewrite E in Halias. discriminate. }
  assert (Hnd' : NoDup (map fst fileData)) by now rewrite Hnames.
  destruct (emitted_group order name (Configuration.group conf) fileData reg
              Hne' Hname Hplain Hok Bn BF BD Hfresh) as [Hcall Hgd].
  assert (Htext : fst (Resource.compileFrom order fileExists read join path
                         loadConfiguration hasGroup name configurationFile)
                  = Resource.compile order name (Configuration.group conf)
                      fileData).
  { unfold Resource.compileFrom. rewrite Hex. fold conf dir.
    rewrite Hgroup. cbn [negb].
    pose proof (compileFromLoop_result fileExists read join dir
                  (Configuration.group conf)
                  (List.length (Configuration.files conf))
                  (Configuration.files conf) []) as Hloop.
    destruct (Resource.compileFromLoop _ _ _ _ _ _ _ _) as [result out].
    cbn [fst] in Hloop. rewrite Hloop, Hload. reflexivity. }
  eexists. split; [rewrite Htext; exact Hcall|].
  split; [reflexivity|].
  cbv zeta. split.
  - unfold Resource.new. cbv zeta in Hgd. rewrite Hgd. reflexivity.
  - intros file Hin.
    apply (get_emitted _ _ _ _ _ fileData); try assumption.
    change (Resource.entryName file, snd (fileDataOf read join dir file))
      with (fileDataOf read join dir file).
    unfold fileData. now apply in_map.
Qed.

(* ------------------------------------------------------------------ *)
(** ** More on the override and on the positions table *)

(** X16. A load that failed is tried again: the failed call leaves the
    handle as it was, and once the file is there the next [getRaw] for
    the name loads it, caches it and returns its bytes. *)
Theorem getRaw_retries_failed_load fileExists read fileExists' read'
    join path reg r g gd o filename file :
  Resource._group r = Some g ->
  StdMap.find g reg = Some gd ->
  Resource._overrideGroup r = Some o ->
  StdMap.find filename (OverrideData.data o) = None ->
  firstMatch filename (Configuration.files (OverrideData.conf o)) = Some file ->
  fileExists (overridePath join path gd file) = false ->
  fileExists' (overridePath join path gd file) = true ->
  let p := overridePath join path gd file in
  Resource.getRaw fileExists read join path reg r filename
    = (Returned nullReference, r,
       [mkOutput ErrorOutput ["    Error: cannot open file"; p]]) /\
  Resource.getRaw fileExists' read' join path reg
    (snd (fst (Resource.getRaw fileExists read join path reg r filename)))
    filename
  = (Returned (mkArrayReference (a_begin (read' p)) (a_size (read' p))),
     Resource.mk (Some g)
       (Some (OverrideData.mk (OverrideData.conf o)
                (StdMap.emplace filename (read' p) (OverrideData.data o)))),
     []).
Proof.
  intros Hg Hgd Ho Hmiss Hmatch Hgone Hthere p.
  assert (Hfirst : Resource.getRaw fileExists read join path reg r filename
                   = (Returned nullReference, r,
                      [mkOutput ErrorOutput
                         ["    Error: cannot open file"; p]])).
  { rewrite (getRaw_cache_miss fileExists read join path reg r g gd o filename)
      by assumption.
    rewrite Hmatch. unfold loaded. now rewrite Hgone. }
  split; [exact Hfirst|].
  rewrite Hfirst. cbn [fst snd].
  rewrite (getRaw_cache_miss fileExists' read' join path reg r g gd o filename)
    by assumption.
  rewrite Hmatch. unfold loaded. rewrite Hthere, Hg. reflexivity.
Qed.

(** X17. [get] does not tell a failed load: for a name whose entry in the
    override manifest names a file that is not there, [get] returns the
    empty string as a normal result -- no assertion, the compiled-in
    content unused -- and the error of [fileContents] is all that
    shows. *)
Theorem get_empty_on_failed_load fileExists read join path reg r g gd o
    filename file :
  Resource._group r = Some g ->
  StdMap.find g reg = Some gd ->
  Resource._overrideGroup r = Some o ->
  StdMap.find filename (OverrideData.data o) = None ->
  firstMatch filename (Configuration.files (OverrideData.conf o)) = Some file ->
  fileExists (overridePath join path gd file) = false ->
  Resource.get fileExists read join path reg r filename
  = (Returned EmptyString, r,
     [mkOutput ErrorOutput
        ["    Error: cannot open file"; overridePath join path gd file]]).
Proof.
  intros Hg Hgd Ho Hmiss Hmatch Hgone.
  unfold Resource.get.
  rewrite (getRaw_cache_miss fileExists read join path reg r g gd o filename)
    by assumption.
  rewrite Hmatch. unfold loaded. rewrite Hgone. reflexivity.
Qed.

Lemma namesOf_app files files' :
  namesOf (files ++ files') = (namesOf files ++ namesOf files')%string.
Proof.
  induction files as [|[name content] files IH]; cbn [app namesOf];
    [reflexivity|].
  now rewrite IH, append_assoc.
Qed.

Lemma contentsOf_app files files' :
  contentsOf (files ++ files') = (contentsOf files ++ contentsOf files')%string.
Proof.
  induction files as [|[name content] files IH]; cbn [app contentsOf];
    [reflexivity|].
  now rewrite IH, append_assoc.
Qed.

Lemma positionsOf_read order files :
  forall pre fl dl k,
    (0 <= fl)%Z -> (0 <= dl)%Z ->
    (fl + Z.of_nat (String.length (namesOf files)) < 2 ^ 32)%Z ->
    (dl + Z.of_nat (String.length (contentsOf files)) < 2 ^ 32)%Z ->
    (k < List.length files)%nat ->
    Resource.readUnsigned order
      (ptr_add (Ptr (pre ++ positionsOf order fl dl files) 0)
         (String.length pre + 8 * k))
    = (fl + Z.of_nat (String.length (namesOf (firstn (S k) files))))%Z /\
    Resource.readUnsigned order
      (ptr_add (Ptr (pre ++ positionsOf order fl dl files) 0)
         (String.length pre + 8 * k + 4))
    = (dl + Z.of_nat (String.length (contentsOf (firstn (S k) files))))%Z.
Proof.
  induction files as [|[name content] files IH];
    intros pre fl dl k Hfl Hdl BF BD Hk; [cbn in Hk; lia|].
  cbn [positionsOf namesOf contentsOf] in *.
  rewrite length_append in BF, BD.
  rewrite (wrap_small (fl + _)) by lia.
  rewrite (wrap_small (dl + _)) by lia.
  destruct k as [|k].
  - cbn [firstn namesOf contentsOf]. rewrite !append_nil_r.
    rewrite Nat.mul_0_r, Nat.add_0_r. split.
    + apply readUnsigned_numberToString; [lia|reflexivity].
    + rewrite <- append_assoc.
      apply readUnsigned_numberToString; [lia|].
      now rewrite length_append, length_numberToString.
  - cbn [List.length] in Hk.
    specialize (IH (pre ++ Resource.numberToString order
                              (fl + Z.of_nat (String.length name))
                        ++ Resource.numberToString order
                              (dl + Z.of_nat (String.length content)))%string
                   (fl + Z.of_nat (String.length name))%Z
                   (dl + Z.of_nat (String.length content))%Z k).
    rewrite !append_assoc in IH.
    rewrite !length_append, !length_numberToString in IH.
    replace (String.length pre + 8 * S k)%nat
      with (String.length pre + (4 + 4) + 8 * k)%nat by lia.
    change (firstn (S (S k)) ((name, content) :: files))
      with ((name, content) :: firstn (S k) files).
    cbn [namesOf contentsOf]. rewrite !length_append.
    destruct IH as [IH1 IH2]; [lia|lia|lia|lia|lia|].
    rewrite IH1, IH2. lia.
Qed.

(** X18. The positions table of the emitted file holds running totals:
    for a file list as in C1, the pair of a file in the array the
    initializer passes as [positions], read as [registerData] reads it,
    is the length of all names up to and including the file's, and the
    length of all contents up to and including the file's. *)
Theorem positions_are_running_totals order name group files k :
  isIdentifier name = true ->
  plainLiteral group = true ->
  Forall (fun f => fst f <> EmptyString /\ commentSafe (fst f) = true) files ->
  (Z.of_nat (String.length (namesOf files)) < 2 ^ 32)%Z ->
  (Z.of_nat (String.length (contentsOf files)) < 2 ^ 32)%Z ->
  (k < List.length files)%nat ->
  exists call,
    emittedCall (Resource.compile order name group files) = Some call /\
    Resource.readUnsigned order
      (ptr_add (r_positions call) (Z.to_nat (2 * size) * k))
    = Z.of_nat (String.length (namesOf (firstn (S k) files))) /\
    Resource.readUnsigned order
      (ptr_add (r_positions call) (Z.to_nat (2 * size) * k + Z.to_nat size))
    = Z.of_nat (String.length (contentsOf (firstn (S k) files))).
Proof.
  intros Hname Hgroup Hnames BF BD Hk.
  assert (Hne : files <> []).
  { destruct files; [cbn in Hk; lia|discriminate]. }
  eexists. split; [now apply emittedCall_compile|].
  cbn [r_positions].
  exact (positionsOf_read order files EmptyString 0 0 k
           (Z.le_refl 0) (Z.le_refl 0) BF BD Hk).
Qed.

(* ================================================================== *)
(** * The further properties on the example data *)

Lemma register_then_unregister_witness :
  Resource.unregisterData "fonts"
    (Resource.registerData LittleEndian "fonts" 1
       (Ptr (Resource.numberToString LittleEndian 1
             ++ Resource.numberToString LittleEndian 2) 0)
       (Ptr "f" 0) (Ptr "ab" 0) Example.assets)
  = (Returned tt, Example.assets).
Proof.
  apply (register_then_unregister LittleEndian "fonts" 1). reflexivity.
Defined.

Lemma other_groups_untouched_witness :
  StdMap.find "assets"
    (snd (Resource.unregisterData "G"
            (Resource.registerData LittleEndian "G" 0 nullptr nullptr nullptr
               Example.assets)))
  = StdMap.find "assets"
      (Resource.registerData LittleEndian "G" 0 nullptr nullptr nullptr
         Example.assets).
Proof.
  refine (proj1 (proj2 (other_groups_untouched LittleEndian "G" "assets"
                          0 nullptr nullptr nullptr "dev/resources.conf"
                          _ _))).
  discriminate.
Defined.

Lemma unregister_frees_the_group_witness :
  StdMap.find "G" (snd (Resource.unregisterData "G" Example.overridden))
  = None.
Proof.
  refine (proj1 (proj2 (unregister_frees_the_group LittleEndian
                          Example.loadConfiguration "G" Example.groupG
                          0 nullptr nullptr nullptr Example.overridden
                          _ eq_refl))).
  unfold Example.overridden, Example.compiled, Example.run.
  apply reach_override.
  destruct (emittedCall _).
  - unfold runInitializer. apply reach_register, reach_empty.
  - apply reach_empty.
Defined.

Lemma overrideGroup_takes_effect_at_construction_witness :
  fst (Resource.new Example.loadConfiguration
         (snd (Resource.overrideGroup "G" "dev/resources.conf"
                 Example.compiled)) "G")
  = Returned Example.handleG.
Proof.
  exact (proj2 (proj2 (proj2
           (overrideGroup_takes_effect_at_construction
              Example.loadConfiguration "G"
              (GroupData.mk ""
                 [("a", mkArrayReference (Ptr "oldold" 0) 3);
                  ("b", mkArrayReference (Ptr "oldold" 3) 3)])
              "dev/resources.conf" Example.compiled eq_refl)))).
Defined.

Lemma getRaw_served_from_cache_witness :
  exists r',
    Resource.getRaw Example.fileExists Example.read Example.join Example.path
      Example.overridden Example.handleG "a"
    = (Returned (mkArrayReference (Ptr "new" 0) 3), r', []) /\
    Resource.getRaw (fun _ => false) (fun _ => nullArray) Example.join
      Example.path Example.overridden r' "a"
    = (Returned (mkArrayReference (Ptr "new" 0) 3), r', []).
Proof.
  eexists.
  exact (getRaw_served_from_cache
           Example.fileExists Example.read Example.join Example.path
           (fun _ => false) (fun _ => nullArray) Example.join Example.path
           Example.overridden Example.handleG "G" Example.groupG
           Example.override "a" (ConfigurationGroup.mk "a.txt" (Some "a"))
           eq_refl eq_refl eq_refl eq_refl eq_refl eq_refl).
Defined.

Lemma compiled_files_are_served_witness :
  exists call,
    emittedCall (Resource.compile LittleEndian "res" "assets" Example.files)
      = Some call /\
    Resource.get Example.fileExists Example.read Example.join Example.path
      (runInitializer LittleEndian call StdMap.empty)
      (Resource.mk (Some "assets") None) "shader.vert"
    = (Returned "void main(){}", Resource.mk (Some "assets") None, []).
Proof.
  destruct (compiled_files_are_served LittleEndian
              Example.fileExists Example.read Example.join Example.path
              Example.loadConfiguration "res" "assets" Example.files
              StdMap.empty)
    as (call & Hcall & _ & Hget & _).
  - discriminate.
  - reflexivity.
  - reflexivity.
  - repeat constructor; discriminate.
  - vm_compute. reflexivity.
  - vm_compute. reflexivity.
  - vm_compute. reflexivity.
  - repeat constructor; simpl; intuition discriminate.
  - reflexivity.
  - exists call. split; [exact Hcall|].
    apply Hget. now left.
Defined.

Lemma emitted_arrays_layout_witness :
  exists call positions,
    emittedCall (Resource.compile LittleEndian "res" "assets" Example.files)
      = Some call /\
    r_group call = "assets" /\
    r_count call = 2%Z /\
    r_positions call = Ptr positions 0 /\
    Z.of_nat (String.length positions) = 16%Z /\
    r_filenames call = Ptr "shader.vertreadme.txt" 0.
Proof.
  destruct (emitted_arrays_layout LittleEndian "res" "assets" Example.files)
    as (call & positions & Hcall & Hg & Hc & Hp & Hlen & Hf & _).
  - discriminate.
  - reflexivity.
  - reflexivity.
  - repeat constructor; discriminate.
  - vm_compute. reflexivity.
  - vm_compute. reflexivity.
  - exists call, positions. auto 10.
Defined.

Lemma packaged_files_are_served_witness :
  exists call,
    emittedCall
      (fst (Resource.compileFrom LittleEndian Packaging.fileExists
              Packaging.read Packaging.join Packaging.path
              Packaging.loadConfiguration Packaging.hasGroup
              "res" "res/resources.conf"))
    = Some call /\
    r_group call = "assets" /\
    Resource.get (fun _ => false) (fun _ => nullArray) Example.join
      Example.path (runInitializer LittleEndian call StdMap.empty)
      (Resource.mk (Some "assets") None) "README"
    = (Returned "", Resource.mk (Some "assets") None, []).
Proof.
  destruct (packaged_files_are_served LittleEndian
              Packaging.fileExists Packaging.read Packaging.join
              Packaging.path Packaging.loadConfiguration Packaging.hasGroup
              (fun _ => false) (fun _ => nullArray) Example.join Example.path
              Example.loadConfiguration "res" "res/resources.conf"
              StdMap.empty)
    as (call & Hcall & Hg & _ & Hget).
  - reflexivity.
  - reflexivity.
  - reflexivity.
  - discriminate.
  - reflexivity.
  - reflexivity.
  - repeat constructor.
  - repeat constructor; simpl; intuition discriminate.
  - vm_compute. reflexivity.
  - vm_compute. reflexivity.
  - vm_compute. reflexivity.
  - reflexivity.
  - exists call. split; [exact Hcall|]. split; [exact Hg|].
    exact (Hget (ConfigurationGroup.mk "readme.txt" (Some "README"))
             (or_intror (or_introl eq_refl))).
Defined.

Lemma getRaw_retries_failed_load_witness :
  Resource.getRaw (fun _ => true) (fun _ => mkArray (Ptr "late" 0) 4)
    Example.join Example.path Example.overridden Example.handleG "c"
  = (Returned (mkArrayReference (Ptr "late" 0) 4),
     Resource.mk (Some "G")
       (Some (OverrideData.mk Example.manifest
                [("c", mkArray (Ptr "late" 0) 4)])),
     []).
Proof.
  exact (proj2
           (getRaw_retries_failed_load
              Example.fileExists Example.read
              (fun _ => true) (fun _ => mkArray (Ptr "late" 0) 4)
              Example.join Example.path Example.overridden Example.handleG
              "G" Example.groupG Example.override "c"
              (ConfigurationGroup.mk "c.txt" (Some "c"))
              eq_refl eq_refl eq_refl eq_refl eq_refl eq_refl eq_refl)).
Defined.

Lemma get_empty_on_failed_load_witness :
  Resource.get Example.fileExists Example.read Example.join Example.path
    Example.overridden Example.handleG "c"
  = (Returned "", Example.handleG,
     [mkOutput ErrorOutput ["    Error: cannot open file"; "dev/c.txt"]]).
Proof.
  exact (get_empty_on_failed_load
           Example.fileExists Example.read Example.join Example.path
           Example.overridden Example.handleG "G" Example.groupG
           Example.override "c" (ConfigurationGroup.mk "c.txt" (Some "c"))
           eq_refl eq_refl eq_refl eq_refl eq_refl eq_refl).
Defined.

Lemma positions_are_running_totals_witness :
  exists call,
    emittedCall (Resource.compile LittleEndian "res" "assets" Example.files)
      = Some call /\
    Resource.readUnsigned LittleEndian (ptr_add (r_positions call) 8) = 21%Z /\
    Resource.readUnsigned LittleEndian (ptr_add (r_positions call) 12) = 13%Z.
Proof.
  destruct (positions_are_running_totals LittleEndian "res" "assets"
              Example.files 1)
    as (call & Hcall & Hnames & Hcontents).
  - reflexivity.
  - reflexivity.
  - repeat constructor; discriminate.
  - vm_compute. reflexivity.
  - vm_compute. reflexivity.
  - vm_compute. lia.
  - exists call. split; [exact Hcall|]. split; [exact Hnames|exact Hcontents].
Defined.
